(** * Tracheostomy Risk Score: the calculator, its constant tables and the
      Youden cut-point step, embedded from the Python sources.

    - [src/constants.py]: the tables [TRS_CUTPOINTS], [TRS_POINTS],
      [RISK_CATEGORIES], [VARIABLE_DEFINITIONS], [PERFORMANCE_METRICS],
      [CLINICAL_SETTINGS].
    - [src/core.py]: [TRSResult], [TRSCalculator] with [calculate_score],
      [_validate_inputs], [_check_missing_data], [_determine_risk_category]
      and [calculate_batch].
    - [src/plotting/plot_roc_matrix_CLEAN.py]: the optimal cut-point step of
      [generate_roc_data] (Youden index over the ROC operating points).

    Python [float] is IEEE 754 binary64, which is what Rocq's primitive
    [float] is; Python [int] is [Z]; [Optional[T]] is [option T]; a raised
    exception is the left injection of a sum.  Arguments carry the types the
    signatures annotate (a clinical value passed as a small int is the float
    of the same value). *)

From Stdlib Require Import ZArith QArith Floats Lia.
From stdpp Require Import base strings gmap list pretty.

Set Warnings "-inexact-float,-clear-no-such-hyp".
Local Open Scope Z_scope.

(** ** Python values *)

(** The float a small Python int is compared as ([meld > 20] compares the
    float [meld] with the int [20]; Python's mixed comparison is exact, and
    so is this conversion for every int of the tables). *)
Definition float_of_int (z : Z) : float :=
  match z with
  | Z0 => 0%float
  | Zpos _ => PrimFloat.of_uint63 (Uint63.of_Z z)
  | Zneg p => PrimFloat.opp (PrimFloat.of_uint63 (Uint63.of_Z (Zpos p)))
  end.

(** [x > c], [x < c], [c <= x] and [x <= c] for a float [x] and an int [c]. *)
Definition float_gt_int (x : float) (c : Z) : bool := PrimFloat.ltb (float_of_int c) x.
Definition float_lt_int (x : float) (c : Z) : bool := PrimFloat.ltb x (float_of_int c).
Definition int_le_float (c : Z) (x : float) : bool := PrimFloat.leb (float_of_int c) x.
Definition float_le_int (x : float) (c : Z) : bool := PrimFloat.leb x (float_of_int c).

(** An f-string: literal text interleaved with formatted holes.  Ints are
    rendered into the literal text; a float hole keeps the float and the
    format it is printed with, so that no decimal printer of binary64 is
    needed. *)
Inductive fragment : Type :=
  | Lit (s : string)
  | Fixed (digits : nat) (x : float)
  | Repr (x : float).

Definition text : Type := list fragment.

Definition fmt_int (z : Z) : fragment := Lit (pretty z).

(** Exceptions the calculator raises; [str(e)] is the message. *)
Inductive exception : Type :=
  | ValueError (message : text).

Definition str_exception (e : exception) : text :=
  match e with ValueError message => message end.

(** Truthiness of an optional string ([if ... and patient_id]). *)
Definition truthy_str (s : option string) : bool :=
  match s with
  | Some s => negb (String.eqb s "")
  | None => false
  end.

(** ** The ambient state: the clock read by [datetime.now()] and the
    records handed to the module logger. *)

Inductive level : Type := INFO | ERROR.

Record world : Type := {
  clock : nat -> Z;
  ticks : nat;
  log : list (level * text)
}.

Definition datetime_now (w : world) : Z * world :=
  (clock w (ticks w),
   {| clock := clock w; ticks := S (ticks w); log := log w |}).

Definition logger_emit (l : level) (message : text) (w : world) : world :=
  {| clock := clock w; ticks := ticks w; log := log w ++ [(l, message)] |}.

Definition logger_info : text -> world -> world := logger_emit INFO.
Definition logger_error : text -> world -> world := logger_emit ERROR.

(** ** constants.py *)

Definition TRS_CUTPOINTS : gmap string Z :=
  list_to_map [("MELD", 20); ("SAPS_II", 42); ("AGE", 52); ("PLATELETS", 78)].

Definition TRS_POINTS : gmap string Z :=
  list_to_map [("MELD", 2); ("SAPS_II", 1); ("AGE", 1); ("PLATELETS", 1);
               ("HCC", 1); ("CVVHD", 1); ("VHF", 1)].

(** [sum(d.values())] *)
Definition sum_values (d : gmap string Z) : Z :=
  map_fold (fun _ v acc => v + acc) 0 d.

Definition MAX_SCORE : Z := sum_values TRS_POINTS.

Record risk_entry : Type := {
  rc_range : Z * Z;
  rc_mortality_rate : float;
  rc_description : string;
  rc_recommendation : string;
  rc_color : string
}.

Definition RISK_LOW : risk_entry :=
  {| rc_range := (0, 1); rc_mortality_rate := 0.10%float;
     rc_description := "Low Risk";
     rc_recommendation := "Standard weaning protocol";
     rc_color := "green" |}.

Definition RISK_MEDIUM : risk_entry :=
  {| rc_range := (2, 2); rc_mortality_rate := 0.33%float;
     rc_description := "Medium Risk";
     rc_recommendation := "Enhanced monitoring and assessment";
     rc_color := "orange" |}.

Definition RISK_HIGH : risk_entry :=
  {| rc_range := (3, 8); rc_mortality_rate := 0.46%float;
     rc_description := "High Risk";
     rc_recommendation := "Consider early tracheostomy (Day 5-7)";
     rc_color := "red" |}.

#[global] Instance risk_entry_inhabited : Inhabited risk_entry := populate RISK_LOW.

(** A dict whose iteration order is used: the items in insertion order. *)
Definition RISK_CATEGORIES : list (string * risk_entry) :=
  [("LOW", RISK_LOW); ("MEDIUM", RISK_MEDIUM); ("HIGH", RISK_HIGH)].

(** [d[k]] on an ordered dict. *)
Definition getitem {V : Type} `{Inhabited V} (d : list (string * V)) (k : string) : V :=
  (list_to_map d : gmap string V) !!! k.

Record variable_definition : Type := {
  vd_name : string;
  vd_unit : string;
  vd_range : option (Z * Z);
  vd_description : string
}.

#[global] Instance variable_definition_inhabited : Inhabited variable_definition :=
  populate {| vd_name := ""; vd_unit := ""; vd_range := None; vd_description := "" |}.

Definition VARIABLE_DEFINITIONS : gmap string variable_definition :=
  list_to_map [
    ("MELD", {| vd_name := "Model for End-Stage Liver Disease Score";
                vd_unit := "points"; vd_range := Some (6, 40);
                vd_description := "Primary indicator of liver dysfunction severity" |});
    ("SAPS_II", {| vd_name := "Simplified Acute Physiology Score II";
                   vd_unit := "points"; vd_range := Some (0, 163);
                   vd_description := "Multi-organ dysfunction assessment" |});
    ("AGE", {| vd_name := "Age at transplantation";
               vd_unit := "years"; vd_range := Some (18, 80);
               vd_description := "Patient age reflecting physiological reserve" |});
    ("PLATELETS", {| vd_name := "Platelet count";
                     vd_unit := "×10³/μL"; vd_range := Some (10, 500);
                     vd_description := "Coagulopathy and liver dysfunction marker" |});
    ("HCC", {| vd_name := "Hepatocellular carcinoma";
               vd_unit := "boolean"; vd_range := None;
               vd_description := "Oncological burden and prognosis indicator" |});
    ("CVVHD", {| vd_name := "Continuous Veno-Venous Hemodialysis";
                 vd_unit := "boolean"; vd_range := None;
                 vd_description := "Multi-organ failure and renal support indicator" |});
    ("VHF", {| vd_name := "Atrial fibrillation";
               vd_unit := "boolean"; vd_range := None;
               vd_description := "Cardiovascular comorbidity indicator" |})
  ].

(** [VARIABLE_DEFINITIONS[k]["range"]] *)
Definition variable_range (k : string) : Z * Z :=
  default (0, 0) (vd_range (VARIABLE_DEFINITIONS !!! k)).

Record performance_metric : Type := {
  original : float;
  bootstrap_mean : float;
  bias_corrected : float;
  ci_95 : float * float;
  optimism : float
}.

Definition PERFORMANCE_METRICS : list (string * performance_metric) :=
  [("C_INDEX", {| original := 0.754; bootstrap_mean := 0.761;
                  bias_corrected := 0.742; ci_95 := (0.628, 0.856)%float;
                  optimism := 0.012 |});
   ("AUC_60_DAY", {| original := 0.754; bootstrap_mean := 0.759;
                     bias_corrected := 0.745; ci_95 := (0.631, 0.859)%float;
                     optimism := 0.009 |});
   ("BRIER_SCORE", {| original := 0.186; bootstrap_mean := 0.184;
                      bias_corrected := 0.188; ci_95 := (0.142, 0.234)%float;
                      optimism := -0.002 |})].

(** A number of a settings table: an int or a float. *)
Inductive number : Type :=
  | Int (z : Z)
  | Float (x : float).

Definition CLINICAL_SETTINGS : gmap string number :=
  list_to_map [("LANDMARK_DAY", Int 7); ("DECISION_THRESHOLD", Float 3.0);
               ("FOLLOWUP_DAYS", Int 90); ("MIN_ICU_STAY", Int 3);
               ("MAX_MISSING_COMPONENTS", Int 2)].

Record threshold_entry : Type := {
  th_threshold : float;
  th_sensitivity : float;
  th_specificity : float;
  th_auc : float;
  th_sample_size : Z
}.

Definition OPTIMAL_THRESHOLDS : list (string * threshold_entry) :=
  [("DAY_3", {| th_threshold := 2.0; th_sensitivity := 1.000;
                th_specificity := 0.167; th_auc := 0.464; th_sample_size := 64 |});
   ("DAY_5", {| th_threshold := 2.0; th_sensitivity := 1.000;
                th_specificity := 0.244; th_auc := 0.614; th_sample_size := 54 |});
   ("DAY_7", {| th_threshold := 3.0; th_sensitivity := 1.000;
                th_specificity := 0.474; th_auc := 0.754; th_sample_size := 47 |})].

(** [not (range1[1] < range2[0] or range2[1] < range1[0])] *)
Definition ranges_overlap (range1 range2 : Z * Z) : bool :=
  negb ((range1.2 <? range2.1) || (range2.2 <? range1.1)).

(** The first pair [(ranges[i], ranges[j])], [i < j], that overlaps. *)
Fixpoint first_overlap (ranges : list (Z * Z)) : option ((Z * Z) * (Z * Z)) :=
  match ranges with
  | [] => None
  | range1 :: rest =>
      match find (ranges_overlap range1) rest with
      | Some range2 => Some (range1, range2)
      | None => first_overlap rest
      end
  end.

(** [validate_constants()], run when the module is imported.  The messages
    keep their literal part. *)
Definition validate_constants : exception + bool :=
  let cutpoint_keys : gset string := dom TRS_CUTPOINTS in
  let point_keys : gset string :=
    filter (fun k => k ∉ ["HCC"; "CVVHD"; "VHF"]) (dom TRS_POINTS) in
  if negb (bool_decide (cutpoint_keys = point_keys))
  then inl (ValueError [Lit "Mismatch between cutpoint and point keys"])
  else
    match first_overlap ((fun item => rc_range item.2) <$> RISK_CATEGORIES) with
    | Some _ => inl (ValueError [Lit "Overlapping risk category ranges"])
    | None =>
        let max_score := sum_values TRS_POINTS in
        match find (fun item =>
                      negb (PrimFloat.leb 0 (th_threshold item.2)
                            && float_le_int (th_threshold item.2) max_score))
                   OPTIMAL_THRESHOLDS with
        | Some item =>
            inl (ValueError [Lit "Invalid threshold for "; Lit item.1; Lit ": ";
                             Repr (th_threshold item.2)])
        | None => inr true
        end
    end.

(** ** core.py *)

Record TRSResult : Type := {
  total_score : Z;
  component_scores : gmap string Z;
  risk_category : string;
  risk_description : string;
  recommendation : string;
  mortality_risk : float;
  details : list text;
  timestamp : Z;
  valid : bool;
  warnings : list text
}.

Record TRSCalculator : Type := {
  validate_inputs : bool;
  log_calculations : bool
}.

(** [TRSCalculator.__init__] (the logging handler set-up is not modelled). *)
Definition TRSCalculator_init (validate log_calc : bool) (w : world) : TRSCalculator * world :=
  ({| validate_inputs := validate; log_calculations := log_calc |},
   if log_calc then logger_info [Lit "TRS Calculator initialized"] w else w).

(** The message of a range [ValueError]:
    [f"{label} must be between {lo} and {hi}, got {x}"]. *)
Definition range_message (label : string) (bounds : Z * Z) (x : float) : text :=
  [Lit label; Lit " must be between "; fmt_int bounds.1; Lit " and ";
   fmt_int bounds.2; Lit ", got "; Repr x].

(** One block of [_validate_inputs]:
    [if x is not None: if not (lo <= x <= hi): raise ValueError(...)]. *)
Definition validate_range (label key : string) (value : option float) : exception + unit :=
  match value with
  | Some x =>
      let bounds := variable_range key in
      if negb (int_le_float bounds.1 x && float_le_int x bounds.2)
      then inl (ValueError (range_message label bounds x))
      else inr tt
  | None => inr tt
  end.

Definition _validate_inputs (meld saps_ii age platelets : option float)
    (hcc cvvhd vhf : option bool) : exception + unit :=
  match validate_range "MELD score" "MELD" meld with
  | inl e => inl e
  | inr _ =>
  match validate_range "SAPS II score" "SAPS_II" saps_ii with
  | inl e => inl e
  | inr _ =>
  match validate_range "Age" "AGE" age with
  | inl e => inl e
  | inr _ => validate_range "Platelet count" "PLATELETS" platelets
  end end end.

Definition missing_if {A : Type} (value : option A) (key : string) : list string :=
  match value with
  | None => [key]
  | Some _ => []
  end.

Definition _check_missing_data (meld saps_ii age platelets : option float)
    (hcc cvvhd vhf : option bool) : list string :=
  missing_if meld "MELD" ++ missing_if saps_ii "SAPS_II" ++ missing_if age "AGE"
  ++ missing_if platelets "PLATELETS" ++ missing_if hcc "HCC"
  ++ missing_if cvvhd "CVVHD" ++ missing_if vhf "VHF".

Fixpoint first_in_range (items : list (string * risk_entry)) (score : Z)
    : option (string * risk_entry) :=
  match items with
  | [] => None
  | (category, data) :: rest =>
      let '(min_score, max_score) := rc_range data in
      if (min_score <=? score) && (score <=? max_score)
      then Some (category, data)
      else first_in_range rest score
  end.

Definition _determine_risk_category (score : Z) : string * risk_entry :=
  match first_in_range RISK_CATEGORIES score with
  | Some found => found
  | None =>
      if score <? 0
      then ("LOW", getitem RISK_CATEGORIES "LOW")
      else ("HIGH", getitem RISK_CATEGORIES "HIGH")
  end.

(** The four accumulators of [calculate_score]. *)
Record tally : Type := {
  t_component_scores : gmap string Z;
  t_details : list text;
  t_warnings : list text;
  t_total_score : Z
}.

Definition tally_empty : tally :=
  {| t_component_scores := ∅; t_details := []; t_warnings := []; t_total_score := 0 |}.

(** One component block of [calculate_score]:
<<
   if x is not None:
       if <hit x>:
           component_scores[key] = TRS_POINTS[key]
           total_score += TRS_POINTS[key]
           details.append(<hit line>)
       else:
           component_scores[key] = 0
           details.append(<miss line>)
   else:
       warnings.append(<missing warning>)
>> *)
Definition component_block {A : Type} (key : string) (hit : A -> bool)
    (hit_line miss_line : A -> text) (missing_warning : string)
    (value : option A) (t : tally) : tally :=
  match value with
  | Some x =>
      if hit x
      then {| t_component_scores := <[key := TRS_POINTS !!! key]> (t_component_scores t);
              t_details := t_details t ++ [hit_line x];
              t_warnings := t_warnings t;
              t_total_score := t_total_score t + TRS_POINTS !!! key |}
      else {| t_component_scores := <[key := 0]> (t_component_scores t);
              t_details := t_details t ++ [miss_line x];
              t_warnings := t_warnings t;
              t_total_score := t_total_score t |}
  | None =>
      {| t_component_scores := t_component_scores t;
         t_details := t_details t;
         t_warnings := t_warnings t ++ [[Lit missing_warning]];
         t_total_score := t_total_score t |}
  end.

(** The detail lines of a continuous component,
    [f"{label} {rel} {cutpoint} ({x:.Nf}{suffix}): +{points} points"]. *)
Definition numeric_line (label rel : string) (key : string) (digits : nat)
    (suffix : string) (points : Z) (x : float) : text :=
  [Lit label; Lit " "; Lit rel; Lit " "; fmt_int (TRS_CUTPOINTS !!! key); Lit " (";
   Fixed digits x; Lit suffix; Lit "): +"; fmt_int points; Lit " points"].

Definition flag_hit_line (label key : string) (_ : bool) : text :=
  [Lit label; Lit " present: +"; fmt_int (TRS_POINTS !!! key); Lit " points"].

Definition flag_miss_line (label : string) (_ : bool) : text :=
  [Lit label; Lit " absent: +0 points"].

Definition meld_block : option float -> tally -> tally :=
  component_block "MELD" (fun meld => float_gt_int meld (TRS_CUTPOINTS !!! "MELD"))
    (numeric_line "MELD" ">" "MELD" 1 "" (TRS_POINTS !!! "MELD"))
    (numeric_line "MELD" "≤" "MELD" 1 "" 0)
    "MELD score missing".

Definition saps_ii_block : option float -> tally -> tally :=
  component_block "SAPS_II" (fun saps_ii => float_gt_int saps_ii (TRS_CUTPOINTS !!! "SAPS_II"))
    (numeric_line "SAPS II" ">" "SAPS_II" 1 "" (TRS_POINTS !!! "SAPS_II"))
    (numeric_line "SAPS II" "≤" "SAPS_II" 1 "" 0)
    "SAPS II score missing".

Definition age_block : option float -> tally -> tally :=
  component_block "AGE" (fun age => float_gt_int age (TRS_CUTPOINTS !!! "AGE"))
    (numeric_line "Age" ">" "AGE" 0 " years" (TRS_POINTS !!! "AGE"))
    (numeric_line "Age" "≤" "AGE" 0 " years" 0)
    "Age missing".

Definition platelets_block : option float -> tally -> tally :=
  component_block "PLATELETS"
    (fun platelets => float_lt_int platelets (TRS_CUTPOINTS !!! "PLATELETS"))
    (numeric_line "Platelets" "<" "PLATELETS" 0 "" (TRS_POINTS !!! "PLATELETS"))
    (numeric_line "Platelets" "≥" "PLATELETS" 0 "" 0)
    "Platelet count missing".

Definition hcc_block : option bool -> tally -> tally :=
  component_block "HCC" (fun hcc : bool => hcc)
    (flag_hit_line "Hepatocellular carcinoma" "HCC")
    (flag_miss_line "Hepatocellular carcinoma")
    "HCC status missing".

Definition cvvhd_block : option bool -> tally -> tally :=
  component_block "CVVHD" (fun cvvhd : bool => cvvhd)
    (flag_hit_line "Continuous veno-venous hemodialysis" "CVVHD")
    (flag_miss_line "Continuous veno-venous hemodialysis")
    "CVVHD status missing".

Definition vhf_block : option bool -> tally -> tally :=
  component_block "VHF" (fun vhf : bool => vhf)
    (flag_hit_line "Atrial fibrillation" "VHF")
    (flag_miss_line "Atrial fibrillation")
    "Atrial fibrillation status missing".

(** The seven blocks in source order. *)
Definition score_components (meld saps_ii age platelets : option float)
    (hcc cvvhd vhf : option bool) : tally :=
  vhf_block vhf (cvvhd_block cvvhd (hcc_block hcc (platelets_block platelets
    (age_block age (saps_ii_block saps_ii (meld_block meld tally_empty)))))).

Definition too_many_missing_warning (n : nat) : text :=
  [Lit "Too many missing components ("; Lit (pretty n);
   Lit "). Results may be unreliable."].

Definition calculate_score (self : TRSCalculator)
    (meld saps_ii age platelets : option float) (hcc cvvhd vhf : option bool)
    (patient_id : option string) (w : world) : (exception + TRSResult) * world :=
  let '(now, w) := datetime_now w in
  let w :=
    if log_calculations self && truthy_str patient_id
    then logger_info [Lit "Calculating TRS for patient "; Lit (default "" patient_id)] w
    else w in
  match (if validate_inputs self
         then _validate_inputs meld saps_ii age platelets hcc cvvhd vhf
         else inr tt) with
  | inl e => (inl e, w)
  | inr _ =>
      let missing_components :=
        _check_missing_data meld saps_ii age platelets hcc cvvhd vhf in
      let t := score_components meld saps_ii age platelets hcc cvvhd vhf in
      let '(category, risk_data) := _determine_risk_category (t_total_score t) in
      let is_valid := bool_decide (length missing_components ≤ 2)%nat in
      let all_warnings :=
        if is_valid then t_warnings t
        else t_warnings t ++ [too_many_missing_warning (length missing_components)] in
      let w :=
        if log_calculations self
        then logger_info [Lit "TRS calculation complete: Score=";
                          fmt_int (t_total_score t); Lit ", Risk="; Lit category] w
        else w in
      (inr {| total_score := t_total_score t;
              component_scores := t_component_scores t;
              risk_category := category;
              risk_description := rc_description risk_data;
              recommendation := rc_recommendation risk_data;
              mortality_risk := rc_mortality_rate risk_data;
              details := t_details t;
              timestamp := now;
              valid := is_valid;
              warnings := all_warnings |}, w)
  end.

(** A patient dict of [calculate_batch], read through [.get].  For the seven
    variables a key that is absent and a key bound to [None] both read as
    [None].  The identifier is read with a default, so there the two differ:
    [pd_patient_id] is [None] for an absent key and [Some v] for a key bound
    to [v], where [v] is [None] or a string.  The values are typed as
    [calculate_score] annotates them; a dict holding a value of another type
    (a [str] for ["meld"], say) is not a [patient_data]: on such a value the
    comparisons of [calculate_score] raise [TypeError], which
    [calculate_batch] records as a failure like any other exception. *)
Record patient_data : Type := {
  pd_patient_id : option (option string);
  pd_meld : option float;
  pd_saps_ii : option float;
  pd_age : option float;
  pd_platelets : option float;
  pd_hcc : option bool;
  pd_cvvhd : option bool;
  pd_vhf : option bool
}.

(** The entry [calculate_batch] records for a patient whose calculation raised. *)
Definition error_result (e : exception) (now : Z) : TRSResult :=
  {| total_score := -1;
     component_scores := ∅;
     risk_category := "ERROR";
     risk_description := "Calculation Error";
     recommendation := "Unable to calculate - check input data";
     mortality_risk := 0.0%float;
     details := [Lit "Error: " :: str_exception e];
     timestamp := now;
     valid := false;
     warnings := [Lit "Calculation failed: " :: str_exception e] |}.

(** [patient_data.get('patient_id', f'patient_{i+1}')]: the default is used
    only when the key is absent. *)
Definition batch_patient_id (i : nat) (patient : patient_data) : option string :=
  match pd_patient_id patient with
  | Some v => v
  | None => Some ("patient_" +:+ pretty (S i))
  end.

(** [f"{patient_id}"] *)
Definition fmt_patient_id (patient_id : option string) : fragment :=
  match patient_id with
  | Some s => Lit s
  | None => Lit "None"
  end.

(** The body of the [for i, patient_data in enumerate(patients_data)] loop. *)
Definition batch_step (self : TRSCalculator) (i : nat) (patient : patient_data)
    (w : world) : TRSResult * world :=
  let patient_id := batch_patient_id i patient in
  match calculate_score self (pd_meld patient) (pd_saps_ii patient) (pd_age patient)
          (pd_platelets patient) (pd_hcc patient) (pd_cvvhd patient) (pd_vhf patient)
          patient_id w with
  | (inr result, w) => (result, w)
  | (inl e, w) =>
      let w := logger_error (Lit "Error calculating TRS for " :: fmt_patient_id patient_id
                             :: Lit ": " :: str_exception e) w in
      let '(now, w) := datetime_now w in
      (error_result e now, w)
  end.

Fixpoint batch_loop (self : TRSCalculator) (i : nat) (patients_data : list patient_data)
    (results : list TRSResult) (w : world) : list TRSResult * world :=
  match patients_data with
  | [] => (results, w)
  | patient :: rest =>
      let '(r, w) := batch_step self i patient w in
      batch_loop self (S i) rest (results ++ [r]) w
  end.

Definition calculate_batch (self : TRSCalculator) (patients_data : list patient_data)
    (w : world) : list TRSResult * world :=
  batch_loop self 0 patients_data [] w.

(** A value of a component-information dict: a string, a range tuple or an
    int. *)
Inductive info_value : Type :=
  | InfoStr (s : string)
  | InfoRange (range : Z * Z)
  | InfoInt (z : Z).

(** An entry of [VARIABLE_DEFINITIONS] as the dict it is in the source; the
    boolean components have no ["range"] key. *)
Definition definition_dict (d : variable_definition) : gmap string info_value :=
  let base : gmap string info_value :=
    <["description" := InfoStr (vd_description d)]>
      (<["unit" := InfoStr (vd_unit d)]> {["name" := InfoStr (vd_name d)]}) in
  match vd_range d with
  | Some range => <["range" := InfoRange range]> base
  | None => base
  end.

Definition get_component_info (self : TRSCalculator) (component : string)
    : exception + gmap string info_value :=
  match VARIABLE_DEFINITIONS !! component with
  | None => inl (ValueError [Lit "Unknown component: "; Lit component])
  | Some d =>
      let info := definition_dict d in
      let info :=
        match TRS_CUTPOINTS !! component with
        | Some cutpoint => <["cutpoint" := InfoInt cutpoint]> info
        | None => info
        end in
      let info :=
        match TRS_POINTS !! component with
        | Some points => <["points" := InfoInt points]> info
        | None => info
        end in
      inr info
  end.

(** The dict comprehension over [VARIABLE_DEFINITIONS.keys()]; an error of
    [get_component_info] would leave it. *)
Definition get_all_components_info (self : TRSCalculator)
    : exception + gmap string (gmap string info_value) :=
  foldl (fun acc component =>
           match acc with
           | inl e => inl e
           | inr all =>
               match get_component_info self component with
               | inl e => inl e
               | inr info => inr (<[component := info]> all)
               end
           end)
        (inr ∅) (map_to_list VARIABLE_DEFINITIONS).*1.

(** ** plotting/plot_roc_matrix_CLEAN.py: the optimal cut-point step

    [generate_roc_data] draws synthetic labels and scores from numpy's
    generator and hands them to scikit-learn's [roc_curve]; the step embedded
    here starts from the three arrays [roc_curve] returns (one entry per ROC
    operating point, [thresholds] in decreasing order, as scikit-learn
    documents) and is the code of lines 64-70. *)

(** [a - b] on two one-dimensional arrays: entry by entry on arrays of one
    length; an array of length 1 is broadcast against the other; any other
    pair of lengths is the [ValueError] of numpy, here [None]. *)
Definition np_sub (a b : list float) : option (list float) :=
  if decide (length a = length b) then Some (zip_with PrimFloat.sub a b)
  else match a, b with
       | [x], _ => Some (PrimFloat.sub x <$> b)
       | _, [y] => Some ((fun x => PrimFloat.sub x y) <$> a)
       | _, _ => None
       end.

(** The scan of [np.argmax] over float64: keep the first entry that no later
    entry exceeds; a NaN counts as the maximum and ends the scan. *)
Fixpoint argmax_scan (mp : float) (max_ind i : nat) (ip : list float) : nat :=
  match ip with
  | [] => max_ind
  | x :: rest =>
      if negb (PrimFloat.leb x mp)
      then (if PrimFloat.is_nan x then i else argmax_scan x i (S i) rest)
      else argmax_scan mp max_ind (S i) rest
  end.

(** [np.argmax(a)]; [None] is the [ValueError] on an empty array. *)
Definition np_argmax (a : list float) : option nat :=
  match a with
  | [] => None
  | x :: rest => Some (if PrimFloat.is_nan x then 0%nat else argmax_scan x 0 1 rest)
  end.

Record cutpoint : Type := {
  optimal_idx : nat;
  optimal_threshold : float;
  sensitivity : float;
  specificity : float;
  youden_index : float
}.

(** Lines 64-70 of [generate_roc_data]. *)
Definition optimal_cutpoint (fpr tpr thresholds : list float) : option cutpoint :=
  youden_scores ← np_sub tpr fpr;
  idx ← np_argmax youden_scores;
  threshold ← thresholds !! idx;
  sens ← tpr !! idx;
  fp ← fpr !! idx;
  youden ← youden_scores !! idx;
  Some {| optimal_idx := idx;
          optimal_threshold := threshold;
          sensitivity := sens;
          specificity := PrimFloat.sub 1 fp;
          youden_index := youden |}.

(** What [generate_roc_data] returns of the step. *)
Definition returned_metrics (c : cutpoint) : float * float * float :=
  (sensitivity c, specificity c, youden_index c).

(** ** plotting/plot_km_corrected.py: the monotone pass of [generate_km_data]

    Lines 56-59, run on the clipped survival probabilities:
<<
    for i in range(1, len(survival_prob)):
        if survival_prob[i] > survival_prob[i-1]:
            survival_prob[i] = survival_prob[i-1]
>> *)

(** The body of the loop at index [i], on the array as updated so far. *)
Definition monotone_step (survival_prob : list float) (i : nat) : list float :=
  match survival_prob !! i, survival_prob !! (i - 1)%nat with
  | Some current, Some previous =>
      if PrimFloat.ltb previous current
      then <[i := previous]> survival_prob
      else survival_prob
  | _, _ => survival_prob
  end.

Definition ensure_monotonic_decrease (survival_prob : list float) : list float :=
  foldl monotone_step survival_prob (seq 1 (length survival_prob - 1)).

(** * Specification-level readings and sample data *)

(** The specification's reading of a component: the points a continuous
    variable contributes above or below a cut-point, the points of a flag,
    whether a variable is absent, and whether a present value lies outside a
    range. *)
Definition points_above (cutpoint : float) (points : Z) (value : option float) : Z :=
  match value with
  | Some x => if PrimFloat.ltb cutpoint x then points else 0
  | None => 0
  end.

Definition points_below (cutpoint : float) (points : Z) (value : option float) : Z :=
  match value with
  | Some x => if PrimFloat.ltb x cutpoint then points else 0
  | None => 0
  end.

Definition points_flag (points : Z) (value : option bool) : Z :=
  match value with
  | Some true => points
  | _ => 0
  end.

Definition absent {A : Type} (value : option A) : nat :=
  match value with
  | None => 1
  | Some _ => 0
  end.

Definition out_of_range (lo hi : float) (value : option float) : Prop :=
  match value with
  | Some x => PrimFloat.leb lo x && PrimFloat.leb x hi = false
  | None => False
  end.

(** The sum of the seven contributions. *)
Definition expected_total (meld saps_ii age platelets : option float)
    (hcc cvvhd vhf : option bool) : Z :=
  points_above 20 2 meld + points_above 42 1 saps_ii + points_above 52 1 age
  + points_below 78 1 platelets
  + points_flag 1 hcc + points_flag 1 cvvhd + points_flag 1 vhf.

(** A result with its timestamp replaced. *)
Definition with_timestamp (now : Z) (r : TRSResult) : TRSResult :=
  {| total_score := total_score r;
     component_scores := component_scores r;
     risk_category := risk_category r;
     risk_description := risk_description r;
     recommendation := recommendation r;
     mortality_risk := mortality_risk r;
     details := details r;
     timestamp := now;
     valid := valid r;
     warnings := warnings r |}.

(** Whether a score lies in the range of an item of [RISK_CATEGORIES]. *)
Definition in_category (item : string * risk_entry) (score : Z) : Prop :=
  (rc_range item.2).1 <= score <= (rc_range item.2).2.

(** The table as the decimal numbers written in the source. *)
Record decimal_metric : Type := {
  d_original : Q;
  d_bootstrap_mean : Q;
  d_bias_corrected : Q;
  d_ci_95 : Q * Q;
  d_optimism : Q
}.

Definition PERFORMANCE_METRICS_decimal : list (string * decimal_metric) :=
  [("C_INDEX", {| d_original := 754 # 1000; d_bootstrap_mean := 761 # 1000;
                  d_bias_corrected := 742 # 1000;
                  d_ci_95 := (628 # 1000, 856 # 1000);
                  d_optimism := 12 # 1000 |});
   ("AUC_60_DAY", {| d_original := 754 # 1000; d_bootstrap_mean := 759 # 1000;
                     d_bias_corrected := 745 # 1000;
                     d_ci_95 := (631 # 1000, 859 # 1000);
                     d_optimism := 9 # 1000 |});
   ("BRIER_SCORE", {| d_original := 186 # 1000; d_bootstrap_mean := 184 # 1000;
                      d_bias_corrected := 188 # 1000;
                      d_ci_95 := (142 # 1000, 234 # 1000);
                      d_optimism := -2 # 1000 |})].

(** The binary64 number a decimal literal denotes: the correctly rounded
    quotient of numerator and denominator. *)
Definition float_of_decimal (q : Q) : float :=
  (float_of_int (Qnum q) / float_of_int (Zpos (Qden q)))%float.

Definition metric_of_decimal (d : decimal_metric) : performance_metric :=
  {| original := float_of_decimal (d_original d);
     bootstrap_mean := float_of_decimal (d_bootstrap_mean d);
     bias_corrected := float_of_decimal (d_bias_corrected d);
     ci_95 := (float_of_decimal (d_ci_95 d).1, float_of_decimal (d_ci_95 d).2);
     optimism := float_of_decimal (d_optimism d) |}.

(** Four samples, labels [1, 0, 1, 0] with scores [0.8, 0.6, 0.4, 0.2]:
    [roc_curve] keeps every operating point (false/true positive counts
    [0,0,1,1,2] and [0,1,1,2,2] over 2 negatives and 2 positives, thresholds
    [inf, 0.8, 0.6, 0.4, 0.2]).  The Youden index is 0.5 at thresholds 0.8
    and 0.4. *)
Definition tied_fpr : list float := [0 / 2; 0 / 2; 1 / 2; 1 / 2; 2 / 2]%float.
Definition tied_tpr : list float := [0 / 2; 1 / 2; 1 / 2; 2 / 2; 2 / 2]%float.
Definition tied_thresholds : list float := [infinity; 0.8; 0.6; 0.4; 0.2]%float.

(** Twenty samples, 10 positives and 10 negatives: 7 positives and 1
    negative score 0.5, the other 3 positives and 9 negatives score 0.1.
    [roc_curve] returns counts [0,1,10] and [0,7,10] over 10, thresholds
    [inf, 0.5, 0.1]. *)
Definition skewed_fpr : list float := [0 / 10; 1 / 10; 10 / 10]%float.
Definition skewed_tpr : list float := [0 / 10; 7 / 10; 10 / 10]%float.
Definition skewed_thresholds : list float := [infinity; 0.5; 0.1]%float.

(** A cohort of the size [generate_roc_data] draws by default for the 30-day
    horizon (147 patients, [int(147 * 0.35) = 51] events, 96 non-events): 36
    events and 24 non-events score 0.6, the rest 0.2. *)
Definition cohort_fpr : list float := [0 / 96; 24 / 96; 96 / 96]%float.
Definition cohort_tpr : list float := [0 / 51; 36 / 51; 51 / 51]%float.
Definition cohort_thresholds : list float := [infinity; 0.6; 0.2]%float.

(** The per-variable warnings of a record, in the order of the blocks. *)
Definition missing_warnings (meld saps_ii age platelets : option float)
    (hcc cvvhd vhf : option bool) : list text :=
  (if meld is None then [[Lit "MELD score missing"]] else [])
  ++ (if saps_ii is None then [[Lit "SAPS II score missing"]] else [])
  ++ (if age is None then [[Lit "Age missing"]] else [])
  ++ (if platelets is None then [[Lit "Platelet count missing"]] else [])
  ++ (if hcc is None then [[Lit "HCC status missing"]] else [])
  ++ (if cvvhd is None then [[Lit "CVVHD status missing"]] else [])
  ++ (if vhf is None then [[Lit "Atrial fibrillation status missing"]] else []).

(** The number of absent variables of a record. *)
Definition absent_count (meld saps_ii age platelets : option float)
    (hcc cvvhd vhf : option bool) : nat :=
  (absent meld + absent saps_ii + absent age + absent platelets
   + absent hcc + absent cvvhd + absent vhf)%nat.

(** The seven component keys. *)
Definition component_keys : list string :=
  ["MELD"; "SAPS_II"; "AGE"; "PLATELETS"; "HCC"; "CVVHD"; "VHF"].

(** [v'] is [v] or is absent: a record with less information. *)
Definition less_informed {A : Type} (v' v : option A) : Prop :=
  v' = None \/ v' = v.

(** A continuous value present and strictly above (below) its cut-point, and
    a flag present and set. *)
Definition hit_above (cutpoint : float) (value : option float) : Prop :=
  exists x, value = Some x /\ PrimFloat.ltb cutpoint x = true.

Definition hit_below (cutpoint : float) (value : option float) : Prop :=
  exists x, value = Some x /\ PrimFloat.ltb x cutpoint = true.

Definition hit_flag (value : option bool) : Prop := value = Some true.

(** Whether an entry of a batch is a failure record, and how many records of
    a log are at level ERROR. *)
Definition is_failure (r : TRSResult) : bool := String.eqb (risk_category r) "ERROR".

Definition error_records (records : list (level * text)) : nat :=
  length (List.filter (fun record => if record.1 is ERROR then true else false) records).


(** The three patients of the batch examples: MELD 25, 50 (out of range), 18. *)
Definition example_patient (meld : float) : patient_data :=
  {| pd_patient_id := None; pd_meld := Some meld; pd_saps_ii := Some 45%float;
     pd_age := Some 55%float; pd_platelets := Some 70%float;
     pd_hcc := Some true; pd_cvvhd := Some false; pd_vhf := None |}.


(** The entries after [previous], each capped by the entry before it. *)
Fixpoint capped_by (previous : float) (rest : list float) : list float :=
  match rest with
  | [] => []
  | current :: rest' =>
      let kept := if PrimFloat.ltb previous current then previous else current in
      kept :: capped_by kept rest'
  end.

(** No entry exceeds the one before it. *)
Definition never_increases (l : list float) : Prop :=
  forall i a b, l !! i = Some a -> l !! S i = Some b -> PrimFloat.ltb a b = false.

(** A calculator (validation and logging enabled, the defaults of
    [__init__]) and an ambient state, for the witnesses and examples. *)
Definition example_calculator : TRSCalculator :=
  {| validate_inputs := true; log_calculations := true |}.

Definition example_world : world :=
  {| clock := Z.of_nat; ticks := 0; log := [] |}.

(** * Properties *)

(** ** Order facts of binary64 comparison, from the specification of the
    primitive operations over [spec_float]. *)

Section SpecFloatOrder.
Local Open Scope Z_scope.

Local Ltac cmp_cases :=
  repeat match goal with
  | |- context [Z.compare ?a ?b] => destruct (Z.compare_spec a b)
  | H : context [Z.compare ?a ?b] |- _ => destruct (Z.compare_spec a b)
  | |- context [Pos.compare_cont Eq ?a ?b] =>
      change (Pos.compare_cont Eq a b) with (Pos.compare a b);
      destruct (Pos.compare_spec a b)
  | H : context [Pos.compare_cont Eq ?a ?b] |- _ =>
      change (Pos.compare_cont Eq a b) with (Pos.compare a b) in H;
      destruct (Pos.compare_spec a b)
  end; simpl in *; subst; try congruence; try lia.

Local Ltac sf_case x := destruct x as [[]|[]| |[] ? ?].

Local Ltac sf_cases2 x y :=
  sf_case x; sf_case y; simpl in *; try congruence; cmp_cases.

Local Ltac sf_cases3 x y z :=
  sf_case x; sf_case y; sf_case z; simpl in *; try congruence; cmp_cases.

Lemma SFleb_ltb_trans a b c :
  SFleb a b = true -> SFltb b c = true -> SFltb a c = true.
Proof. unfold SFleb, SFltb. sf_cases3 a b c. Qed.

Lemma SFltb_leb a b : SFltb a b = true -> SFleb a b = true.
Proof.
  unfold SFleb, SFltb. destruct (SFcompare a b) as [[]|]; congruence.
Qed.

Lemma SFleb_total a b :
  SFeqb a a = true -> SFeqb b b = true -> SFleb a b = false -> SFltb b a = true.
Proof. unfold SFleb, SFltb, SFeqb. sf_cases2 a b. Qed.

Lemma SFeqb_not_ltb a b : SFeqb a b = true -> SFltb a b = false.
Proof.
  unfold SFeqb, SFltb. destruct (SFcompare a b) as [[]|]; congruence.
Qed.

Lemma SFeqb_not_gtb a b : SFeqb a b = true -> SFltb b a = false.
Proof. unfold SFeqb, SFltb. sf_cases2 a b. Qed.

Lemma SFeqb_ltb_r a b c : SFeqb a b = true -> SFltb a c = true -> SFltb b c = true.
Proof. unfold SFeqb, SFltb. sf_cases3 a b c. Qed.

Lemma SFltb_irrefl a : SFltb a a = false.
Proof. unfold SFltb. sf_case a; simpl; try congruence; cmp_cases. Qed.

Lemma SFeqb_refl_l a b : SFeqb a b = true -> SFeqb a a = true.
Proof. unfold SFeqb. sf_cases2 a b. Qed.

Lemma SFeqb_refl_r a b : SFeqb a b = true -> SFeqb b b = true.
Proof. unfold SFeqb. sf_cases2 a b. Qed.

Lemma SFleb_not_ltb a b : SFleb a b = true -> SFltb b a = false.
Proof. unfold SFleb, SFltb. sf_cases2 a b. Qed.

Lemma SFleb_trans a b c : SFleb a b = true -> SFleb b c = true -> SFleb a c = true.
Proof. unfold SFleb. sf_cases3 a b c. Qed.

Lemma SFleb_squeeze a b c :
  SFleb a b = true -> SFleb b c = true -> SFeqb a c = true -> SFeqb b c = true.
Proof. unfold SFleb, SFeqb. sf_cases3 a b c. Qed.

Lemma SFltb_leb_neq a b c :
  SFltb a b = true -> SFleb b c = true -> SFeqb a c = false.
Proof. unfold SFleb, SFltb, SFeqb. sf_cases3 a b c. Qed.

Lemma SFleb_refl a : SFeqb a a = true -> SFleb a a = true.
Proof. unfold SFleb, SFeqb. destruct (SFcompare a a) as [[]|]; congruence. Qed.

Lemma SFnan_ltb a b : SFeqb a a = false -> SFltb a b = false.
Proof. unfold SFltb, SFeqb. sf_cases2 a b. Qed.

Lemma SFnan_eqb_r a b : SFeqb a a = false -> SFeqb b a = false.
Proof. unfold SFeqb. sf_cases2 a b. Qed.
End SpecFloatOrder.

Section FloatOrder.
Local Open Scope float_scope.
Implicit Types a b c x y : float.

Lemma is_nan_false a : PrimFloat.is_nan a = false <-> (a =? a) = true.
Proof. unfold PrimFloat.is_nan. destruct (a =? a); simpl; intuition congruence. Qed.

Lemma is_nan_true a : PrimFloat.is_nan a = true <-> (a =? a) = false.
Proof. unfold PrimFloat.is_nan. destruct (a =? a); simpl; intuition congruence. Qed.

Lemma float_leb_ltb_trans a b c : (a <=? b) = true -> (b <? c) = true -> (a <? c) = true.
Proof. rewrite !leb_spec, !ltb_spec. apply SFleb_ltb_trans. Qed.

Lemma float_ltb_leb a b : (a <? b) = true -> (a <=? b) = true.
Proof. rewrite leb_spec, ltb_spec. apply SFltb_leb. Qed.

Lemma float_leb_total a b :
  PrimFloat.is_nan a = false -> PrimFloat.is_nan b = false ->
  (a <=? b) = false -> (b <? a) = true.
Proof.
  rewrite !is_nan_false, !FloatAxioms.eqb_spec, leb_spec, ltb_spec.
  apply SFleb_total.
Qed.

Lemma float_eqb_not_ltb a b : (a =? b) = true -> (a <? b) = false.
Proof. rewrite FloatAxioms.eqb_spec, ltb_spec. apply SFeqb_not_ltb. Qed.

Lemma float_eqb_not_gtb a b : (a =? b) = true -> (b <? a) = false.
Proof. rewrite FloatAxioms.eqb_spec, ltb_spec. apply SFeqb_not_gtb. Qed.

Lemma float_ltb_irrefl a : (a <? a) = false.
Proof. rewrite ltb_spec. apply SFltb_irrefl. Qed.

Lemma float_leb_not_ltb a b : (a <=? b) = true -> (b <? a) = false.
Proof. rewrite leb_spec, ltb_spec. apply SFleb_not_ltb. Qed.

Lemma float_leb_trans a b c : (a <=? b) = true -> (b <=? c) = true -> (a <=? c) = true.
Proof. rewrite !leb_spec. apply SFleb_trans. Qed.

Lemma float_leb_squeeze a b c :
  (a <=? b) = true -> (b <=? c) = true -> (a =? c) = true -> (b =? c) = true.
Proof. rewrite !leb_spec, !FloatAxioms.eqb_spec. apply SFleb_squeeze. Qed.

Lemma float_ltb_leb_neq a b c :
  (a <? b) = true -> (b <=? c) = true -> (a =? c) = false.
Proof. rewrite leb_spec, ltb_spec, FloatAxioms.eqb_spec. apply SFltb_leb_neq. Qed.

Lemma float_leb_refl a : PrimFloat.is_nan a = false -> (a <=? a) = true.
Proof. rewrite is_nan_false, FloatAxioms.eqb_spec, leb_spec. apply SFleb_refl. Qed.

Lemma float_nan_ltb a b : PrimFloat.is_nan a = true -> (a <? b) = false.
Proof. rewrite is_nan_true, FloatAxioms.eqb_spec, ltb_spec. apply SFnan_ltb. Qed.

Lemma float_nan_eqb_r a b : PrimFloat.is_nan a = true -> (b =? a) = false.
Proof. rewrite is_nan_true, !FloatAxioms.eqb_spec. apply SFnan_eqb_r. Qed.

Lemma float_eqb_not_nan_r a b : (a =? b) = true -> PrimFloat.is_nan b = false.
Proof.
  intros H. destruct (PrimFloat.is_nan b) eqn:Hb; [|done].
  by rewrite (float_nan_eqb_r b a Hb) in H.
Qed.
End FloatOrder.

(** ** [np.argmax]: the first index holding a maximal entry *)

Section Argmax.
Local Open Scope float_scope.
Local Open Scope nat_scope.

Lemma argmax_scan_spec rest : forall mp max_ind i,
  max_ind < i -> PrimFloat.is_nan mp = false ->
  exists m,
    (argmax_scan mp max_ind i rest = max_ind /\ m = mp \/
     i <= argmax_scan mp max_ind i rest /\
     rest !! (argmax_scan mp max_ind i rest - i) = Some m /\ (mp =? m)%float = false)
    /\ ((mp <=? m)%float = true \/ PrimFloat.is_nan m = true)
    /\ (forall k y, rest !! k = Some y -> (m <? y)%float = false)
    /\ (forall k y, rest !! k = Some y -> (y =? m)%float = true ->
          argmax_scan mp max_ind i rest <= i + k).
Proof.
  induction rest as [|x rest IH]; intros mp max_ind i Hlt Hmp; simpl.
  - exists mp. split_and!; [by left | left; by apply float_leb_refl | done | done].
  - destruct (x <=? mp)%float eqn:Hle; simpl.
    + destruct (IH mp max_ind (S i) ltac:(lia) Hmp) as (m & Hloc & Hge & Hmax & Htie).
      exists m. split_and!.
      * destruct Hloc as [[-> ->]|(Hi & Hm & Hne)]; [by left | right].
        split_and!; [lia | | done].
        replace (argmax_scan mp max_ind (S i) rest - i) with
          (S (argmax_scan mp max_ind (S i) rest - S i)) by lia.
        done.
      * done.
      * intros [|k] y Hy; simpl in Hy; [|by eapply Hmax].
        injection Hy as <-. destruct Hge as [Hge|Hnan].
        -- apply float_leb_not_ltb. by eapply float_leb_trans.
        -- by apply float_nan_ltb.
      * intros [|k] y Hy Heq; simpl in Hy.
        -- injection Hy as <-.
           destruct Hloc as [[-> _]|(_ & _ & Hne)]; [lia|].
           destruct Hge as [Hge|Hnan].
           ++ by rewrite (float_leb_squeeze _ _ _ Hle Hge Heq) in Hne.
           ++ by rewrite (float_nan_eqb_r _ x Hnan) in Heq.
        -- specialize (Htie k y Hy Heq). lia.
    + destruct (PrimFloat.is_nan x) eqn:Hnan.
      * exists x. split_and!.
        -- right. rewrite Nat.sub_diag. split_and!; [lia | done |].
           by apply float_nan_eqb_r.
        -- by right.
        -- intros. by apply float_nan_ltb.
        -- intros k y _ Heq. by rewrite (float_nan_eqb_r _ y Hnan) in Heq.
      * assert (Hmx : (mp <? x)%float = true) by by apply float_leb_total.
        destruct (IH x i (S i) ltac:(lia) Hnan) as (m & Hloc & Hge & Hmax & Htie).
        assert (Hne : (mp =? m)%float = false).
        { destruct Hge as [Hge|Hm]; [by eapply float_ltb_leb_neq | by apply float_nan_eqb_r]. }
        exists m. split_and!.
        -- right. destruct Hloc as [[-> ->]|(Hi & Hm & _)].
           ++ rewrite Nat.sub_diag. split_and!; [lia | done | done].
           ++ split_and!; [lia | | done].
              replace (argmax_scan x i (S i) rest - i) with
                (S (argmax_scan x i (S i) rest - S i)) by lia.
              done.
        -- destruct Hge as [Hge|Hm]; [left | by right].
           eapply float_leb_trans; [by apply float_ltb_leb | done].
        -- intros [|k] y Hy; simpl in Hy; [|by eapply Hmax].
           injection Hy as <-. destruct Hge as [Hge|Hm].
           ++ by apply float_leb_not_ltb.
           ++ by apply float_nan_ltb.
        -- intros [|k] y Hy Heq; simpl in Hy.
           ++ injection Hy as <-.
              destruct Hloc as [[-> _]|(_ & _ & Hxm)]; [lia | congruence].
           ++ specialize (Htie k y Hy Heq). lia.
Qed.

(** [np.argmax] returns an index of the array; no entry exceeds the entry
    there, and every entry equal to it stands at that index or later. *)
Lemma np_argmax_spec a r :
  np_argmax a = Some r ->
  exists m, a !! r = Some m
    /\ (forall j y, a !! j = Some y -> (m <? y)%float = false)
    /\ (forall j y, a !! j = Some y -> (y =? m)%float = true -> r <= j).
Proof.
  destruct a as [|x rest]; [done|]. simpl. intros [= <-].
  destruct (PrimFloat.is_nan x) eqn:Hnan.
  - exists x. split_and!; [done | | intros; lia].
    intros. by apply float_nan_ltb.
  - destruct (argmax_scan_spec rest x 0 1 ltac:(lia) Hnan) as (m & Hloc & Hge & Hmax & Htie).
    exists m. split_and!.
    + destruct Hloc as [[-> ->]|(Hi & Hm & _)]; [done|].
      destruct (argmax_scan x 0 1 rest) as [|n]; [lia|].
      simpl in *. by rewrite Nat.sub_0_r in Hm.
    + intros [|j] y Hy; simpl in Hy; [|by eapply Hmax].
      injection Hy as <-. destruct Hge as [Hge|Hm].
      * by apply float_leb_not_ltb.
      * by apply float_nan_ltb.
    + intros [|j] y Hy Heq; simpl in Hy.
      * injection Hy as <-.
        destruct Hloc as [[-> _]|(_ & _ & Hne)]; [lia | congruence].
      * specialize (Htie j y Hy Heq). lia.
Qed.

Lemma np_argmax_is_Some a : a <> [] -> is_Some (np_argmax a).
Proof. destruct a; [done | by eexists]. Qed.
End Argmax.

(** ** The optimal cut-point step *)

Section OptimalCutpoint.
Local Open Scope float_scope.
Local Open Scope nat_scope.

Lemma np_sub_same_length a b :
  length a = length b -> np_sub a b = Some (zip_with PrimFloat.sub a b).
Proof. intros Hlen. unfold np_sub. by rewrite decide_True. Qed.

(** Where both arrays have an entry, the difference has theirs, broadcast or
    not. *)
Lemma np_sub_lookup a b s i x y :
  np_sub a b = Some s -> a !! i = Some x -> b !! i = Some y ->
  s !! i = Some (x - y)%float.
Proof.
  unfold np_sub. intros Hs Hx Hy.
  destruct (decide (length a = length b)) as [Hlen|Hlen].
  - injection Hs as <-. by rewrite lookup_zip_with, Hx, Hy.
  - destruct a as [|x0 [|x1 a']]; [done | |].
    + injection Hs as <-. destruct i as [|i]; [|done].
      destruct b as [|y0 b']; [done|].
      simpl in Hx, Hy. by injection Hx as ->; injection Hy as ->.
    + destruct b as [|y0 [|y1 b']]; [done | | done].
      injection Hs as <-. destruct i as [|i]; [|done].
      simpl in Hx, Hy. by injection Hx as ->; injection Hy as ->.
Qed.

Lemma optimal_cutpoint_Some fpr tpr thresholds c :
  optimal_cutpoint fpr tpr thresholds = Some c ->
  exists youden_scores,
    np_sub tpr fpr = Some youden_scores
    /\ np_argmax youden_scores = Some (optimal_idx c)
    /\ youden_scores !! optimal_idx c = Some (youden_index c)
    /\ thresholds !! optimal_idx c = Some (optimal_threshold c)
    /\ tpr !! optimal_idx c = Some (sensitivity c)
    /\ exists fp, fpr !! optimal_idx c = Some fp
         /\ specificity c = (1 - fp)%float
         /\ youden_index c = (sensitivity c - fp)%float.
Proof.
  unfold optimal_cutpoint. intros H.
  destruct (np_sub tpr fpr) as [s|] eqn:Hs; [|done]. simpl in H.
  destruct (np_argmax s) as [idx|] eqn:Hidx; [|done]. simpl in H.
  destruct (thresholds !! idx) as [t|] eqn:Ht; [|done]. simpl in H.
  destruct (tpr !! idx) as [tp|] eqn:Htp; [|done]. simpl in H.
  destruct (fpr !! idx) as [fp|] eqn:Hfp; [|done]. simpl in H.
  pose proof (np_sub_lookup _ _ _ _ _ _ Hs Htp Hfp) as Hy.
  rewrite Hy in H. simpl in H.
  injection H as <-. simpl. exists s. split_and!; try done. by exists fp.
Qed.

(** On three non-empty arrays of one length the step returns a result. *)
Lemma optimal_cutpoint_total fpr tpr thresholds :
  length tpr = length fpr -> length thresholds = length fpr -> fpr <> [] ->
  is_Some (optimal_cutpoint fpr tpr thresholds).
Proof.
  intros Htpr Hthr Hne. unfold optimal_cutpoint.
  rewrite np_sub_same_length by done. simpl.
  destruct (np_argmax_is_Some (zip_with PrimFloat.sub tpr fpr)) as [idx Hidx].
  { destruct tpr, fpr; done. }
  rewrite Hidx. simpl.
  destruct (np_argmax_spec _ _ Hidx) as (m & Hm & _).
  assert (Hlt : idx < length fpr).
  { apply lookup_lt_Some in Hm. rewrite length_zip_with in Hm. lia. }
  destruct (lookup_lt_is_Some_2 thresholds idx ltac:(lia)) as [t ->].
  destruct (lookup_lt_is_Some_2 tpr idx ltac:(lia)) as [tp Htp].
  destruct (lookup_lt_is_Some_2 fpr idx ltac:(lia)) as [fp Hfp].
  rewrite Htp, Hfp. simpl. rewrite Hm. by eexists.
Qed.
End OptimalCutpoint.

(** C4, as the code has it: on ROC arrays of one non-empty length whose
    thresholds decrease (as [roc_curve] returns them), the step returns the
    operating point at the index [np.argmax] selects: the threshold, the
    sensitivity, the specificity and the Youden index of the result are
    [thresholds[idx]], [tpr[idx]], [1 - fpr[idx]] and [tpr[idx] - fpr[idx]]
    at that one index.  No operating point exceeds it in Youden index
    [tpr - fpr], and every other operating point attaining that Youden index
    stands later in the arrays and has a strictly smaller threshold: among
    tied maxima the first point, i.e. the LARGEST threshold, is selected. *)
Theorem optimal_cutpoint_first_maximum (fpr tpr thresholds : list float) :
  length tpr = length fpr -> length thresholds = length fpr -> fpr <> [] ->
  (forall i j ti tj, (i < j)%nat ->
     thresholds !! i = Some ti -> thresholds !! j = Some tj ->
     PrimFloat.ltb tj ti = true) ->
  exists c tp0 fp0,
    optimal_cutpoint fpr tpr thresholds = Some c
    /\ tpr !! optimal_idx c = Some tp0
    /\ fpr !! optimal_idx c = Some fp0
    /\ thresholds !! optimal_idx c = Some (optimal_threshold c)
    /\ sensitivity c = tp0
    /\ specificity c = (1 - fp0)%float
    /\ youden_index c = (tp0 - fp0)%float
    /\ (forall j tp fp, tpr !! j = Some tp -> fpr !! j = Some fp ->
          PrimFloat.ltb (tp0 - fp0) (tp - fp) = false)
    /\ (forall j tp fp t, tpr !! j = Some tp -> fpr !! j = Some fp ->
          thresholds !! j = Some t ->
          PrimFloat.eqb (tp - fp) (tp0 - fp0) = true ->
          (optimal_idx c <= j)%nat
          /\ (j = optimal_idx c \/ PrimFloat.ltb t (optimal_threshold c) = true)).
Proof.
  intros Htpr Hthr Hne Hdec.
  destruct (optimal_cutpoint_total fpr tpr thresholds Htpr Hthr Hne) as [c Hc].
  destruct (optimal_cutpoint_Some _ _ _ _ Hc)
    as (s & Hs & Hidx & Hyi & Ht & Htp & fp0 & Hfp0 & Hspec & Hy).
  rewrite np_sub_same_length in Hs by done. injection Hs as <-.
  exists c, (sensitivity c), fp0. split_and!; try done.
  - destruct (np_argmax_spec _ _ Hidx) as (m & Hm & Hmax & _).
    assert (m = youden_index c) as -> by congruence.
    intros j tp fp Hj1 Hj2. rewrite <- Hy. apply (Hmax j).
    by rewrite lookup_zip_with, Hj1, Hj2.
  - destruct (np_argmax_spec _ _ Hidx) as (m & Hm & _ & Htie).
    assert (m = youden_index c) as -> by congruence.
    intros j tp fp t Hj1 Hj2 Hj3 Heq. rewrite <- Hy in Heq.
    assert (Hle : (optimal_idx c <= j)%nat).
    { apply (Htie j (tp - fp)%float); [|done]. by rewrite lookup_zip_with, Hj1, Hj2. }
    split; [done|].
    destruct (decide (j = optimal_idx c)) as [|Hneq]; [by left | right].
    apply (Hdec (optimal_idx c) j); [lia | done | done].
Qed.

Lemma optimal_cutpoint_first_maximum_witness :
  exists c tp0 fp0,
    optimal_cutpoint tied_fpr tied_tpr tied_thresholds = Some c
    /\ tied_tpr !! optimal_idx c = Some tp0
    /\ tied_fpr !! optimal_idx c = Some fp0
    /\ tied_thresholds !! optimal_idx c = Some (optimal_threshold c)
    /\ sensitivity c = tp0
    /\ specificity c = (1 - fp0)%float
    /\ youden_index c = (tp0 - fp0)%float
    /\ (forall j tp fp, tied_tpr !! j = Some tp -> tied_fpr !! j = Some fp ->
          PrimFloat.ltb (tp0 - fp0) (tp - fp) = false)
    /\ (forall j tp fp t, tied_tpr !! j = Some tp -> tied_fpr !! j = Some fp ->
          tied_thresholds !! j = Some t ->
          PrimFloat.eqb (tp - fp) (tp0 - fp0) = true ->
          (optimal_idx c <= j)%nat
          /\ (j = optimal_idx c \/ PrimFloat.ltb t (optimal_threshold c) = true)).
Proof.
  apply (optimal_cutpoint_first_maximum tied_fpr tied_tpr tied_thresholds);
    [reflexivity | reflexivity | discriminate |].
  intros i j ti tj Hij Hi Hj. unfold tied_thresholds in Hi, Hj.
  repeat (destruct i as [|i]; simpl in Hi; try discriminate Hi);
    repeat (destruct j as [|j]; simpl in Hj; try discriminate Hj);
    try lia; injection Hi as <-; injection Hj as <-; reflexivity.
Defined.

(** C4, as stated, fails: on the four-sample ROC the Youden index is
    [0, 0.5, 0, 0.5, 0] along the thresholds [inf, 0.8, 0.6, 0.4, 0.2]; the
    thresholds 0.8 and 0.4 both attain the maximum 0.5, and the step selects
    0.8 (index 1), not the smaller 0.4. *)
Lemma optimal_cutpoint_not_smallest_tied :
  exists c,
    optimal_cutpoint tied_fpr tied_tpr tied_thresholds = Some c
    /\ zip_with PrimFloat.sub tied_tpr tied_fpr = [0; 0.5; 0; 0.5; 0]%float
    /\ youden_index c = 0.5%float
    /\ optimal_idx c = 1%nat
    /\ optimal_threshold c = 0.8%float
    /\ tied_thresholds !! 3%nat = Some 0.4%float
    /\ PrimFloat.ltb 0.4 (optimal_threshold c) = true.
Proof.
  eexists. split_and!; [vm_compute; reflexivity | reflexivity ..].
Qed.

(** C5, as the code has it: on ROC arrays of one non-empty length the step
    returns, for the selected operating point [(fp, tp)], the sensitivity
    [tp], the specificity [1 - fp] and the Youden index [tp - fp], each one
    binary64 operation on the rates. *)
Theorem optimal_cutpoint_youden_difference (fpr tpr thresholds : list float) :
  length tpr = length fpr -> length thresholds = length fpr -> fpr <> [] ->
  exists c tp fp,
    optimal_cutpoint fpr tpr thresholds = Some c
    /\ tpr !! optimal_idx c = Some tp
    /\ fpr !! optimal_idx c = Some fp
    /\ returned_metrics c = (tp, 1 - fp, tp - fp)%float.
Proof.
  intros Htpr Hthr Hne.
  destruct (optimal_cutpoint_total fpr tpr thresholds Htpr Hthr Hne) as [c Hc].
  destruct (optimal_cutpoint_Some _ _ _ _ Hc)
    as (_ & _ & _ & _ & _ & Htp & fp & Hfp & Hspec & Hy).
  exists c, (sensitivity c), fp. split_and!; try done.
  unfold returned_metrics. by rewrite Hspec, Hy.
Qed.

Lemma optimal_cutpoint_youden_difference_witness :
  exists c tp fp,
    optimal_cutpoint skewed_fpr skewed_tpr skewed_thresholds = Some c
    /\ skewed_tpr !! optimal_idx c = Some tp
    /\ skewed_fpr !! optimal_idx c = Some fp
    /\ returned_metrics c = (tp, 1 - fp, tp - fp)%float.
Proof.
  apply (optimal_cutpoint_youden_difference skewed_fpr skewed_tpr skewed_thresholds);
    [reflexivity | reflexivity | discriminate].
Defined.

(** C5, as stated, fails in binary64: at the operating point
    [(fpr, tpr) = (1/10, 7/10)] the returned Youden index [tpr - fpr] is
    [0.59999999999999998] while [sensitivity + specificity - 1] evaluates to
    [0.60000000000000009]; likewise at [(24/96, 36/51)] of a cohort of the
    default size. *)
Lemma optimal_cutpoint_youden_identity_inexact :
  (exists c,
     optimal_cutpoint skewed_fpr skewed_tpr skewed_thresholds = Some c
     /\ sensitivity c = 0.7%float
     /\ specificity c = 0.9%float
     /\ youden_index c = 0.59999999999999998%float
     /\ (sensitivity c + specificity c - 1)%float = 0.60000000000000009%float
     /\ PrimFloat.eqb (youden_index c) (sensitivity c + specificity c - 1) = false)
  /\ (exists c,
     optimal_cutpoint cohort_fpr cohort_tpr cohort_thresholds = Some c
     /\ sensitivity c = (36 / 51)%float
     /\ specificity c = 0.75%float
     /\ youden_index c = 0.45588235294117652%float
     /\ (sensitivity c + specificity c - 1)%float = 0.45588235294117663%float
     /\ PrimFloat.eqb (youden_index c) (sensitivity c + specificity c - 1) = false).
Proof.
  split; eexists; (split_and!; [vm_compute; reflexivity | reflexivity ..]).
Qed.

(** ** The recorded validation report *)

Lemma PERFORMANCE_METRICS_literals :
  PERFORMANCE_METRICS = prod_map id metric_of_decimal <$> PERFORMANCE_METRICS_decimal.
Proof. reflexivity. Qed.

(** C3: for each of the three recorded metrics, [bias_corrected] equals
    [original - optimism] exactly, both as the binary64 values Python
    compares with [==] and as the decimal numbers written in the table. *)
Theorem performance_metrics_bias_corrected :
  PERFORMANCE_METRICS.*1 = ["C_INDEX"; "AUC_60_DAY"; "BRIER_SCORE"]
  /\ Forall (fun entry =>
       PrimFloat.eqb (bias_corrected entry.2) (original entry.2 - optimism entry.2) = true
       /\ bias_corrected entry.2 = (original entry.2 - optimism entry.2)%float)
     PERFORMANCE_METRICS
  /\ Forall (fun entry =>
       (d_bias_corrected entry.2 == d_original entry.2 - d_optimism entry.2)%Q)
     PERFORMANCE_METRICS_decimal.
Proof.
  split_and!; [reflexivity | |].
  - repeat constructor.
  - repeat constructor; reflexivity.
Qed.

(** C8: for each of the three recorded metrics the 95% interval contains the
    bootstrap mean, [ci_95[0] <= bootstrap_mean <= ci_95[1]], both in
    binary64 and over the decimal numbers of the table. *)
Theorem performance_metrics_interval_contains_mean :
  Forall (fun entry =>
       PrimFloat.leb (ci_95 entry.2).1 (bootstrap_mean entry.2) = true
       /\ PrimFloat.leb (bootstrap_mean entry.2) (ci_95 entry.2).2 = true)
     PERFORMANCE_METRICS
  /\ Forall (fun entry =>
       ((d_ci_95 entry.2).1 <= d_bootstrap_mean entry.2)%Q
       /\ (d_bootstrap_mean entry.2 <= (d_ci_95 entry.2).2)%Q)
     PERFORMANCE_METRICS_decimal.
Proof.
  split.
  - repeat constructor.
  - repeat constructor; unfold Qle; simpl; lia.
Qed.

(** ** The calculator *)

Section ComponentBlock.
Context {A : Type} (key : string) (hit : A -> bool)
  (hit_line miss_line : A -> text) (missing_warning : string).

Local Abbreviation block := (component_block key hit hit_line miss_line missing_warning).

Lemma component_block_total value t :
  t_total_score (block value t) =
  t_total_score t +
  match value with Some x => if hit x then TRS_POINTS !!! key else 0 | None => 0 end.
Proof.
  unfold component_block. destruct value as [x|]; [destruct (hit x)|]; simpl; lia.
Qed.

Lemma component_block_lookup value t :
  t_component_scores (block value t) !! key =
  match value with
  | Some x => Some (if hit x then TRS_POINTS !!! key else 0)
  | None => t_component_scores t !! key
  end.
Proof.
  unfold component_block. destruct value as [x|]; [destruct (hit x)|]; simpl;
    by rewrite ?lookup_insert_eq.
Qed.

Lemma component_block_lookup_ne k value t :
  key <> k -> t_component_scores (block value t) !! k = t_component_scores t !! k.
Proof.
  intros Hne. unfold component_block.
  destruct value as [x|]; [destruct (hit x)|]; simpl; by rewrite ?lookup_insert_ne.
Qed.

Lemma component_block_warnings value t :
  t_warnings (block value t) =
  t_warnings t ++ match value with None => [[Lit missing_warning]] | Some _ => [] end.
Proof.
  unfold component_block. destruct value as [x|]; [destruct (hit x)|]; simpl;
    by rewrite ?app_nil_r.
Qed.

Lemma sum_values_insert (d : gmap string Z) k v :
  d !! k = None -> sum_values (<[k := v]> d) = v + sum_values d.
Proof.
  intros Hk. unfold sum_values. rewrite map_fold_insert_L; [done | | done].
  intros. lia.
Qed.

Lemma component_block_sum value t :
  t_component_scores t !! key = None ->
  sum_values (t_component_scores t) = t_total_score t ->
  sum_values (t_component_scores (block value t)) = t_total_score (block value t).
Proof.
  intros Hfresh Hsum. unfold component_block.
  destruct value as [x|]; [destruct (hit x)|]; simpl;
    rewrite ?sum_values_insert by done; lia.
Qed.
End ComponentBlock.

(** Every subscript of a constant table in the source hits a key. *)
Lemma tables_defined :
  TRS_CUTPOINTS !! "MELD" = Some 20 /\ TRS_CUTPOINTS !! "SAPS_II" = Some 42
  /\ TRS_CUTPOINTS !! "AGE" = Some 52 /\ TRS_CUTPOINTS !! "PLATELETS" = Some 78
  /\ TRS_POINTS !! "MELD" = Some 2 /\ TRS_POINTS !! "SAPS_II" = Some 1
  /\ TRS_POINTS !! "AGE" = Some 1 /\ TRS_POINTS !! "PLATELETS" = Some 1
  /\ TRS_POINTS !! "HCC" = Some 1 /\ TRS_POINTS !! "CVVHD" = Some 1
  /\ TRS_POINTS !! "VHF" = Some 1
  /\ vd_range <$> VARIABLE_DEFINITIONS !! "MELD" = Some (Some (6, 40))
  /\ vd_range <$> VARIABLE_DEFINITIONS !! "SAPS_II" = Some (Some (0, 163))
  /\ vd_range <$> VARIABLE_DEFINITIONS !! "AGE" = Some (Some (18, 80))
  /\ vd_range <$> VARIABLE_DEFINITIONS !! "PLATELETS" = Some (Some (10, 500))
  /\ (list_to_map RISK_CATEGORIES : gmap string risk_entry) !! "LOW" = Some RISK_LOW
  /\ (list_to_map RISK_CATEGORIES : gmap string risk_entry) !! "HIGH" = Some RISK_HIGH
  /\ MAX_SCORE = 8.
Proof. split_and!; reflexivity. Qed.

(** The import-time check of the tables passes. *)
Lemma validate_constants_passes : validate_constants = inr true.
Proof. vm_compute. reflexivity. Qed.

Lemma score_components_total meld saps_ii age platelets hcc cvvhd vhf :
  t_total_score (score_components meld saps_ii age platelets hcc cvvhd vhf) =
  expected_total meld saps_ii age platelets hcc cvvhd vhf.
Proof.
  unfold score_components, vhf_block, cvvhd_block, hcc_block, platelets_block,
    age_block, saps_ii_block, meld_block, expected_total.
  rewrite !component_block_total. simpl.
  unfold points_above, points_below, points_flag.
  replace (TRS_POINTS !!! "MELD") with 2 by reflexivity.
  replace (TRS_POINTS !!! "SAPS_II") with 1 by reflexivity.
  replace (TRS_POINTS !!! "AGE") with 1 by reflexivity.
  replace (TRS_POINTS !!! "PLATELETS") with 1 by reflexivity.
  replace (TRS_POINTS !!! "HCC") with 1 by reflexivity.
  replace (TRS_POINTS !!! "CVVHD") with 1 by reflexivity.
  replace (TRS_POINTS !!! "VHF") with 1 by reflexivity.
  assert (Hm : forall x, float_gt_int x (TRS_CUTPOINTS !!! "MELD") = PrimFloat.ltb 20 x)
    by reflexivity.
  assert (Hs : forall x, float_gt_int x (TRS_CUTPOINTS !!! "SAPS_II") = PrimFloat.ltb 42 x)
    by reflexivity.
  assert (Ha : forall x, float_gt_int x (TRS_CUTPOINTS !!! "AGE") = PrimFloat.ltb 52 x)
    by reflexivity.
  assert (Hp : forall x, float_lt_int x (TRS_CUTPOINTS !!! "PLATELETS") = PrimFloat.ltb x 78)
    by reflexivity.
  destruct meld, saps_ii, age, platelets; rewrite ?Hm, ?Hs, ?Ha, ?Hp;
    destruct hcc as [[]|], cvvhd as [[]|], vhf as [[]|]; lia.
Qed.

Local Ltac unfold_blocks :=
  unfold score_components, vhf_block, cvvhd_block, hcc_block, platelets_block,
    age_block, saps_ii_block, meld_block.

(** The entry of [component_scores] under each key. *)
Local Ltac block_lookup :=
  unfold_blocks;
  rewrite ?component_block_lookup_ne by done;
  rewrite component_block_lookup;
  rewrite ?component_block_lookup_ne by done.

Lemma score_components_lookup meld saps_ii age platelets hcc cvvhd vhf :
  let scores :=
    t_component_scores (score_components meld saps_ii age platelets hcc cvvhd vhf) in
  scores !! "MELD" = (fun x => if PrimFloat.ltb 20 x then 2 else 0) <$> meld
  /\ scores !! "SAPS_II" = (fun x => if PrimFloat.ltb 42 x then 1 else 0) <$> saps_ii
  /\ scores !! "AGE" = (fun x => if PrimFloat.ltb 52 x then 1 else 0) <$> age
  /\ scores !! "PLATELETS" = (fun x => if PrimFloat.ltb x 78 then 1 else 0) <$> platelets
  /\ scores !! "HCC" = (fun b : bool => if b then 1 else 0) <$> hcc
  /\ scores !! "CVVHD" = (fun b : bool => if b then 1 else 0) <$> cvvhd
  /\ scores !! "VHF" = (fun b : bool => if b then 1 else 0) <$> vhf.
Proof.
  simpl. split_and!.
  - block_lookup. by destruct meld.
  - block_lookup. by destruct saps_ii.
  - block_lookup. by destruct age.
  - block_lookup. by destruct platelets.
  - block_lookup. by destruct hcc.
  - block_lookup. by destruct cvvhd.
  - block_lookup. by destruct vhf.
Qed.

Lemma score_components_sum meld saps_ii age platelets hcc cvvhd vhf :
  sum_values (t_component_scores (score_components meld saps_ii age platelets hcc cvvhd vhf))
  = t_total_score (score_components meld saps_ii age platelets hcc cvvhd vhf).
Proof.
  unfold_blocks.
  repeat (apply component_block_sum;
          [by rewrite ?component_block_lookup_ne by done|]).
  reflexivity.
Qed.

Lemma score_components_warnings meld saps_ii age platelets hcc cvvhd vhf :
  t_warnings (score_components meld saps_ii age platelets hcc cvvhd vhf) =
  (if meld is None then [[Lit "MELD score missing"]] else [])
  ++ (if saps_ii is None then [[Lit "SAPS II score missing"]] else [])
  ++ (if age is None then [[Lit "Age missing"]] else [])
  ++ (if platelets is None then [[Lit "Platelet count missing"]] else [])
  ++ (if hcc is None then [[Lit "HCC status missing"]] else [])
  ++ (if cvvhd is None then [[Lit "CVVHD status missing"]] else [])
  ++ (if vhf is None then [[Lit "Atrial fibrillation status missing"]] else []).
Proof.
  unfold_blocks. rewrite !component_block_warnings. simpl.
  destruct meld, saps_ii, age, platelets, hcc, cvvhd, vhf; reflexivity.
Qed.

Lemma _check_missing_data_length meld saps_ii age platelets hcc cvvhd vhf :
  length (_check_missing_data meld saps_ii age platelets hcc cvvhd vhf) =
  (absent meld + absent saps_ii + absent age + absent platelets
   + absent hcc + absent cvvhd + absent vhf)%nat.
Proof.
  unfold _check_missing_data. rewrite !length_app.
  destruct meld, saps_ii, age, platelets, hcc, cvvhd, vhf; reflexivity.
Qed.

(** The category by score: LOW up to 1, MEDIUM at 2, HIGH from 3. *)
Lemma _determine_risk_category_cases score :
  _determine_risk_category score =
  if score <=? 1 then ("LOW", RISK_LOW)
  else if score =? 2 then ("MEDIUM", RISK_MEDIUM)
  else ("HIGH", RISK_HIGH).
Proof.
  unfold _determine_risk_category. simpl.
  replace (getitem RISK_CATEGORIES "LOW") with RISK_LOW by reflexivity.
  replace (getitem RISK_CATEGORIES "HIGH") with RISK_HIGH by reflexivity.
  destruct (Z.leb_spec 0 score), (Z.leb_spec score 1), (Z.leb_spec 2 score),
    (Z.leb_spec score 2), (Z.leb_spec 3 score), (Z.leb_spec score 8),
    (Z.ltb_spec score 0), (Z.eqb_spec score 2); simpl; try reflexivity; lia.
Qed.

(** [_validate_inputs] raises exactly when a present continuous value is
    outside its range. *)
Lemma validate_range_inl label key value :
  (exists e, validate_range label key value = inl e) <->
  out_of_range (float_of_int (variable_range key).1)
               (float_of_int (variable_range key).2) value.
Proof.
  unfold validate_range, out_of_range, int_le_float, float_le_int.
  destruct value as [x|]; [|split; [by intros [? ?] | done]].
  destruct (_ && _); simpl; split; try done.
  - by intros [? ?].
  - by eexists.
Qed.

Lemma _validate_inputs_inl meld saps_ii age platelets hcc cvvhd vhf :
  (exists e, _validate_inputs meld saps_ii age platelets hcc cvvhd vhf = inl e) <->
  out_of_range 6 40 meld \/ out_of_range 0 163 saps_ii
  \/ out_of_range 18 80 age \/ out_of_range 10 500 platelets.
Proof.
  pose proof (validate_range_inl "MELD score" "MELD" meld) as Hm.
  pose proof (validate_range_inl "SAPS II score" "SAPS_II" saps_ii) as Hs.
  pose proof (validate_range_inl "Age" "AGE" age) as Ha.
  pose proof (validate_range_inl "Platelet count" "PLATELETS" platelets) as Hp.
  change (float_of_int (variable_range "MELD").1) with 6%float in Hm.
  change (float_of_int (variable_range "MELD").2) with 40%float in Hm.
  change (float_of_int (variable_range "SAPS_II").1) with 0%float in Hs.
  change (float_of_int (variable_range "SAPS_II").2) with 163%float in Hs.
  change (float_of_int (variable_range "AGE").1) with 18%float in Ha.
  change (float_of_int (variable_range "AGE").2) with 80%float in Ha.
  change (float_of_int (variable_range "PLATELETS").1) with 10%float in Hp.
  change (float_of_int (variable_range "PLATELETS").2) with 500%float in Hp.
  unfold _validate_inputs.
  destruct (validate_range "MELD score" "MELD" meld) as [e1|[]].
  { split; [intros _; left; apply Hm; by eexists | by eexists]. }
  destruct (validate_range "SAPS II score" "SAPS_II" saps_ii) as [e2|[]].
  { split; [intros _; right; left; apply Hs; by eexists | by eexists]. }
  destruct (validate_range "Age" "AGE" age) as [e3|[]].
  { split; [intros _; right; right; left; apply Ha; by eexists | by eexists]. }
  rewrite Hp. split; [tauto|].
  intros [H|[H|[H|H]]]; [| | |done].
  - apply Hm in H as [? ?]; done.
  - apply Hs in H as [? ?]; done.
  - apply Ha in H as [? ?]; done.
Qed.

(** *** What a call of [calculate_score] returns *)

Lemma calculate_score_inl self meld saps_ii age platelets hcc cvvhd vhf patient_id w :
  (exists e, (calculate_score self meld saps_ii age platelets hcc cvvhd vhf patient_id w).1
             = inl e) <->
  validate_inputs self = true
  /\ exists e, _validate_inputs meld saps_ii age platelets hcc cvvhd vhf = inl e.
Proof.
  unfold calculate_score, datetime_now.
  destruct (validate_inputs self);
    [destruct (_validate_inputs meld saps_ii age platelets hcc cvvhd vhf) as [e|[]]|];
    try destruct (_determine_risk_category _); simpl.
  - split; [intros _; split; [done | by eexists] | by eexists].
  - split; [by intros [? ?] | by intros [_ [? ?]]].
  - split; [by intros [? ?] | by intros [? _]].
Qed.

Lemma calculate_score_inr self meld saps_ii age platelets hcc cvvhd vhf patient_id w r :
  (calculate_score self meld saps_ii age platelets hcc cvvhd vhf patient_id w).1 = inr r ->
  let t := score_components meld saps_ii age platelets hcc cvvhd vhf in
  let missing := _check_missing_data meld saps_ii age platelets hcc cvvhd vhf in
  total_score r = t_total_score t
  /\ component_scores r = t_component_scores t
  /\ risk_category r = (_determine_risk_category (t_total_score t)).1
  /\ valid r = bool_decide (length missing <= 2)%nat
  /\ warnings r =
       (if valid r then t_warnings t
        else t_warnings t ++ [too_many_missing_warning (length missing)])
  /\ timestamp r = clock w (ticks w).
Proof.
  unfold calculate_score, datetime_now.
  destruct (if validate_inputs self then _ else _) as [e|[]]; [done|].
  destruct (_determine_risk_category _) as [category risk_data] eqn:Hcat.
  simpl. by intros [= <-].
Qed.

(** The outcome of a call depends on the ambient state and on the patient
    identifier through the timestamp only. *)
Lemma calculate_score_world self meld saps_ii age platelets hcc cvvhd vhf
    patient_id patient_id' w w' :
  match (calculate_score self meld saps_ii age platelets hcc cvvhd vhf patient_id w).1,
        (calculate_score self meld saps_ii age platelets hcc cvvhd vhf patient_id' w').1
  with
  | inr r, inr r' => r = with_timestamp (timestamp r) r'
  | inl e, inl e' => e = e'
  | _, _ => False
  end.
Proof.
  unfold calculate_score, datetime_now.
  destruct (if validate_inputs self then _ else _) as [e|[]]; [done|].
  by destruct (_determine_risk_category _).
Qed.

(** C1: when a call returns, each present continuous variable is recorded
    with its configured points if it is strictly beyond its cut-point
    (MELD > 20: 2, SAPS II > 42: 1, age > 52: 1, platelets < 78: 1) and with
    0 otherwise, in particular with 0 when it equals the cut-point; the total
    is the sum of these contributions and those of the flags. *)
Theorem calculate_score_strict_cutpoints
    self meld saps_ii age platelets hcc cvvhd vhf patient_id w r :
  (calculate_score self meld saps_ii age platelets hcc cvvhd vhf patient_id w).1 = inr r ->
  (forall x, meld = Some x ->
     component_scores r !! "MELD" = Some (if PrimFloat.ltb 20 x then 2 else 0)
     /\ (PrimFloat.eqb x 20 = true ->
         component_scores r !! "MELD" = Some 0 /\ points_above 20 2 meld = 0))
  /\ (forall x, saps_ii = Some x ->
     component_scores r !! "SAPS_II" = Some (if PrimFloat.ltb 42 x then 1 else 0)
     /\ (PrimFloat.eqb x 42 = true ->
         component_scores r !! "SAPS_II" = Some 0 /\ points_above 42 1 saps_ii = 0))
  /\ (forall x, age = Some x ->
     component_scores r !! "AGE" = Some (if PrimFloat.ltb 52 x then 1 else 0)
     /\ (PrimFloat.eqb x 52 = true ->
         component_scores r !! "AGE" = Some 0 /\ points_above 52 1 age = 0))
  /\ (forall x, platelets = Some x ->
     component_scores r !! "PLATELETS" = Some (if PrimFloat.ltb x 78 then 1 else 0)
     /\ (PrimFloat.eqb x 78 = true ->
         component_scores r !! "PLATELETS" = Some 0 /\ points_below 78 1 platelets = 0))
  /\ total_score r =
       points_above 20 2 meld + points_above 42 1 saps_ii + points_above 52 1 age
       + points_below 78 1 platelets
       + points_flag 1 hcc + points_flag 1 cvvhd + points_flag 1 vhf.
Proof.
  intros Hr. apply calculate_score_inr in Hr as (Htot & Hsc & _). simpl in *.
  destruct (score_components_lookup meld saps_ii age platelets hcc cvvhd vhf)
    as (Hm & Hs & Ha & Hp & _).
  rewrite <- Hsc in Hm, Hs, Ha, Hp.
  split_and!.
  - intros x ->. rewrite Hm. simpl. split; [done|].
    intros Heq. by rewrite (float_eqb_not_gtb _ _ Heq).
  - intros x ->. rewrite Hs. simpl. split; [done|].
    intros Heq. by rewrite (float_eqb_not_gtb _ _ Heq).
  - intros x ->. rewrite Ha. simpl. split; [done|].
    intros Heq. by rewrite (float_eqb_not_gtb _ _ Heq).
  - intros x ->. rewrite Hp. simpl. split; [done|].
    intros Heq. by rewrite (float_eqb_not_ltb _ _ Heq).
  - rewrite Htot. apply score_components_total.
Qed.

Lemma calculate_score_strict_cutpoints_witness :
  exists r,
    (calculate_score example_calculator (Some 20%float) (Some 45%float) (Some 55%float)
       (Some 78%float) (Some true) (Some false) (Some true) (Some "P001")
       example_world).1 = inr r
    /\ component_scores r !! "MELD" = Some 0
    /\ component_scores r !! "SAPS_II" = Some 1
    /\ component_scores r !! "AGE" = Some 1
    /\ component_scores r !! "PLATELETS" = Some 0
    /\ total_score r = 4.
Proof.
  eexists. split; [vm_compute; reflexivity|].
  match goal with |- context [component_scores ?r] => set (res := r) end.
  destruct (calculate_score_strict_cutpoints example_calculator
              (Some 20%float) (Some 45%float) (Some 55%float) (Some 78%float)
              (Some true) (Some false) (Some true) (Some "P001") example_world res)
    as (Hm & Hs & Ha & Hp & Htot); [vm_compute; reflexivity|].
  split_and!.
  - apply (Hm 20%float); reflexivity.
  - apply (Hs 45%float eq_refl).
  - apply (Ha 55%float eq_refl).
  - apply (Hp 78%float); reflexivity.
  - apply Htot.
Defined.

(** C2: an absent variable never makes the call fail (an error names a
    present value outside its range); when the call returns, each absent
    variable has no entry in [component_scores], leaves its warning in
    [warnings] and adds nothing to the total, which is the sum over the
    variables present; [valid] is [False] exactly when more than
    [MAX_MISSING_COMPONENTS = 2] variables are absent; with all seven absent
    the call still returns, scoring 0. *)
Theorem calculate_score_absent_variables
    self meld saps_ii age platelets hcc cvvhd vhf patient_id w :
  let outcome :=
    (calculate_score self meld saps_ii age platelets hcc cvvhd vhf patient_id w).1 in
  ((exists e, outcome = inl e) ->
     out_of_range 6 40 meld \/ out_of_range 0 163 saps_ii
     \/ out_of_range 18 80 age \/ out_of_range 10 500 platelets)
  /\ (forall r, outcome = inr r ->
       (meld = None ->
          component_scores r !! "MELD" = None
          /\ [Lit "MELD score missing"] ∈ warnings r)
       /\ (saps_ii = None ->
          component_scores r !! "SAPS_II" = None
          /\ [Lit "SAPS II score missing"] ∈ warnings r)
       /\ (age = None ->
          component_scores r !! "AGE" = None
          /\ [Lit "Age missing"] ∈ warnings r)
       /\ (platelets = None ->
          component_scores r !! "PLATELETS" = None
          /\ [Lit "Platelet count missing"] ∈ warnings r)
       /\ (hcc = None ->
          component_scores r !! "HCC" = None
          /\ [Lit "HCC status missing"] ∈ warnings r)
       /\ (cvvhd = None ->
          component_scores r !! "CVVHD" = None
          /\ [Lit "CVVHD status missing"] ∈ warnings r)
       /\ (vhf = None ->
          component_scores r !! "VHF" = None
          /\ [Lit "Atrial fibrillation status missing"] ∈ warnings r)
       /\ total_score r =
            points_above 20 2 meld + points_above 42 1 saps_ii
            + points_above 52 1 age + points_below 78 1 platelets
            + points_flag 1 hcc + points_flag 1 cvvhd + points_flag 1 vhf
       /\ (valid r = false <->
           (2 < absent meld + absent saps_ii + absent age + absent platelets
                + absent hcc + absent cvvhd + absent vhf)%nat))
  /\ (exists r,
        (calculate_score self None None None None None None None patient_id w).1 = inr r
        /\ valid r = false /\ total_score r = 0 /\ component_scores r = ∅)
  /\ CLINICAL_SETTINGS !! "MAX_MISSING_COMPONENTS" = Some (Int 2).
Proof.
  simpl. split_and!.
  - intros He. apply calculate_score_inl in He as [_ He].
    by apply _validate_inputs_inl in He.
  - intros r Hr. apply calculate_score_inr in Hr as (Htot & Hsc & _ & Hval & Hw & _).
    simpl in *.
    destruct (score_components_lookup meld saps_ii age platelets hcc cvvhd vhf)
      as (Hm & Hs & Ha & Hp & Hh & Hc & Hv).
    rewrite <- Hsc in Hm, Hs, Ha, Hp, Hh, Hc, Hv.
    assert (Hin : forall msg,
      msg ∈ t_warnings (score_components meld saps_ii age platelets hcc cvvhd vhf) ->
      msg ∈ warnings r).
    { intros msg Hmsg. rewrite Hw. destruct (valid r); [done|].
      apply elem_of_app. by left. }
    rewrite score_components_warnings in Hin.
    split_and!.
    + intros ->. split; [done|]. apply Hin. set_solver.
    + intros ->. split; [done|]. apply Hin. set_solver.
    + intros ->. split; [done|]. apply Hin. set_solver.
    + intros ->. split; [done|]. apply Hin. set_solver.
    + intros ->. split; [done|]. apply Hin. set_solver.
    + intros ->. split; [done|]. apply Hin. set_solver.
    + intros ->. split; [done|]. apply Hin. set_solver.
    + rewrite Htot. apply score_components_total.
    + rewrite Hval, bool_decide_eq_false, _check_missing_data_length. lia.
  - destruct (calculate_score self None None None None None None None patient_id w).1
      as [e|r] eqn:Hr.
    + assert (He : exists e, (calculate_score self None None None None None None None
                                patient_id w).1 = inl e) by by eexists.
      apply calculate_score_inl in He as [_ He].
      apply _validate_inputs_inl in He. simpl in He. tauto.
    + exists r. split; [done|].
      apply calculate_score_inr in Hr as (Htot & Hsc & _ & Hval & _). done.
  - reflexivity.
Qed.

(** C6: a call raises exactly when range validation is enabled and a
    present continuous value lies outside its declared range (MELD 6-40,
    SAPS II 0-163, age 18-80, platelets 10-500); with validation disabled
    every call returns and the record is scored as usual. *)
Theorem calculate_score_range_error
    self meld saps_ii age platelets hcc cvvhd vhf patient_id w :
  let outcome :=
    (calculate_score self meld saps_ii age platelets hcc cvvhd vhf patient_id w).1 in
  ((exists e, outcome = inl e) <->
     validate_inputs self = true
     /\ (out_of_range 6 40 meld \/ out_of_range 0 163 saps_ii
         \/ out_of_range 18 80 age \/ out_of_range 10 500 platelets))
  /\ (validate_inputs self = false ->
      exists r, outcome = inr r
        /\ total_score r =
             points_above 20 2 meld + points_above 42 1 saps_ii
             + points_above 52 1 age + points_below 78 1 platelets
             + points_flag 1 hcc + points_flag 1 cvvhd + points_flag 1 vhf
        /\ total_score r = sum_values (component_scores r)).
Proof.
  simpl. split.
  - rewrite calculate_score_inl. by rewrite _validate_inputs_inl.
  - intros Hoff.
    destruct (calculate_score self meld saps_ii age platelets hcc cvvhd vhf patient_id w).1
      as [e|r] eqn:Hr.
    + assert (He : exists e, (calculate_score self meld saps_ii age platelets hcc cvvhd
                                vhf patient_id w).1 = inl e) by by eexists.
      apply calculate_score_inl in He as [Hon _]. congruence.
    + exists r. split; [done|].
      apply calculate_score_inr in Hr as (Htot & Hsc & _). simpl in *.
      rewrite Htot, Hsc, score_components_sum. split; [|done].
      apply score_components_total.
Qed.

(** C9: two calls with the same calculator and the same arguments, the
    second made in the ambient state (clock and log) the first one left, or
    in any two ambient states whatever, either both raise the same error or
    both return, with the same total score and the same component scores. *)
Theorem calculate_score_deterministic
    self meld saps_ii age platelets hcc cvvhd vhf patient_id :
  let call := calculate_score self meld saps_ii age platelets hcc cvvhd vhf patient_id in
  let same_outcome (first second : exception + TRSResult) :=
    match first, second with
    | inr r1, inr r2 =>
        total_score r1 = total_score r2 /\ component_scores r1 = component_scores r2
    | inl e1, inl e2 => e1 = e2
    | _, _ => False
    end in
  (forall w, same_outcome (call w).1 (call (call w).2).1)
  /\ (forall w1 w2, same_outcome (call w1).1 (call w2).1).
Proof.
  simpl.
  assert (Hany : forall w1 w2,
    match (calculate_score self meld saps_ii age platelets hcc cvvhd vhf patient_id w1).1,
          (calculate_score self meld saps_ii age platelets hcc cvvhd vhf patient_id w2).1
    with
    | inr r1, inr r2 =>
        total_score r1 = total_score r2 /\ component_scores r1 = component_scores r2
    | inl e1, inl e2 => e1 = e2
    | _, _ => False
    end).
  { intros w1 w2.
    pose proof (calculate_score_world self meld saps_ii age platelets hcc cvvhd vhf
                  patient_id patient_id w1 w2) as H.
    destruct (calculate_score _ _ _ _ _ _ _ _ _ w1).1 as [e1|r1],
             (calculate_score _ _ _ _ _ _ _ _ _ w2).1 as [e2|r2]; try done.
    by rewrite H. }
  split; [intros w; apply Hany | apply Hany].
Qed.

Lemma expected_total_bounds meld saps_ii age platelets hcc cvvhd vhf :
  0 <= expected_total meld saps_ii age platelets hcc cvvhd vhf <= 8.
Proof.
  unfold expected_total.
  assert (Ha : forall c p v, 0 <= p -> 0 <= points_above c p v <= p).
  { intros c p [x|] Hp; simpl; [destruct (PrimFloat.ltb c x)|]; lia. }
  assert (Hb : forall c p v, 0 <= p -> 0 <= points_below c p v <= p).
  { intros c p [x|] Hp; simpl; [destruct (PrimFloat.ltb x c)|]; lia. }
  assert (Hf : forall p v, 0 <= p -> 0 <= points_flag p v <= p).
  { intros p [[]|] Hp; simpl; lia. }
  pose proof (Ha 20%float 2 meld). pose proof (Ha 42%float 1 saps_ii).
  pose proof (Ha 52%float 1 age). pose proof (Hb 78%float 1 platelets).
  pose proof (Hf 1 hcc). pose proof (Hf 1 cvvhd). pose proof (Hf 1 vhf). lia.
Qed.

(** C10: when a call returns, the total score is the sum of the values of
    [component_scores] and lies in 0..8, and the risk category is LOW, MEDIUM
    or HIGH, namely the item of [RISK_CATEGORIES] whose range holds the
    total.  The three ranges are 0-1, 2-2 and 3-8, pairwise disjoint, and
    every score 0..8 lies in the range of the category assigned to it; the
    assignment is total over the integers, LOW below 0 and HIGH above 8. *)
Theorem calculate_score_total_and_category
    self meld saps_ii age platelets hcc cvvhd vhf patient_id w r :
  (calculate_score self meld saps_ii age platelets hcc cvvhd vhf patient_id w).1 = inr r ->
  total_score r = sum_values (component_scores r)
  /\ 0 <= total_score r <= 8
  /\ risk_category r ∈ ["LOW"; "MEDIUM"; "HIGH"]
  /\ (exists item, item ∈ RISK_CATEGORIES /\ item.1 = risk_category r
        /\ in_category item (total_score r))
  /\ (fun item => (item.1, rc_range item.2)) <$> RISK_CATEGORIES
       = [("LOW", (0, 1)); ("MEDIUM", (2, 2)); ("HIGH", (3, 8))]
  /\ (forall i j item1 item2 score, i <> j ->
        RISK_CATEGORIES !! i = Some item1 -> RISK_CATEGORIES !! j = Some item2 ->
        ~ (in_category item1 score /\ in_category item2 score))
  /\ (forall score, 0 <= score <= 8 ->
        _determine_risk_category score ∈ RISK_CATEGORIES
        /\ in_category (_determine_risk_category score) score)
  /\ (forall score, score < 0 -> (_determine_risk_category score).1 = "LOW")
  /\ (forall score, 8 < score -> (_determine_risk_category score).1 = "HIGH").
Proof.
  intros Hr. apply calculate_score_inr in Hr as (Htot & Hsc & Hcat & _). simpl in *.
  assert (Hb : 0 <= total_score r <= 8).
  { rewrite Htot, score_components_total. apply expected_total_bounds. }
  assert (Hcover : forall score, 0 <= score <= 8 ->
            _determine_risk_category score ∈ RISK_CATEGORIES
            /\ in_category (_determine_risk_category score) score).
  { intros score Hs. rewrite _determine_risk_category_cases.
    unfold in_category, RISK_CATEGORIES.
    destruct (Z.leb_spec score 1); [|destruct (Z.eqb_spec score 2)]; simpl;
      (split; [repeat first [apply list_elem_of_here | apply list_elem_of_further] | lia]). }
  rewrite <- Htot in Hcat.
  split_and!.
  - by rewrite Htot, Hsc, score_components_sum.
  - lia.
  - lia.
  - rewrite Hcat, _determine_risk_category_cases.
    destruct (_ <=? 1); [|destruct (_ =? 2)]; simpl;
      repeat first [apply list_elem_of_here | apply list_elem_of_further].
  - exists (_determine_risk_category (total_score r)).
    destruct (Hcover (total_score r) Hb) as [Hin Hrange]. done.
  - reflexivity.
  - intros i j item1 item2 score Hij Hi Hj. unfold in_category.
    destruct i as [|[|[|i]]], j as [|[|[|j]]]; simpl in Hi, Hj;
      try done; injection Hi as <-; injection Hj as <-; simpl; lia.
  - done.
  - intros score Hs. rewrite _determine_risk_category_cases.
    destruct (Z.leb_spec score 1); [done | lia].
  - intros score Hs. rewrite _determine_risk_category_cases.
    destruct (Z.leb_spec score 1); [lia|].
    destruct (Z.eqb_spec score 2); [lia | done].
Qed.

Lemma calculate_score_total_and_category_witness :
  exists r,
    (calculate_score example_calculator (Some 25%float) (Some 45%float) (Some 55%float)
       (Some 70%float) (Some true) (Some false) (Some true) (Some "P001")
       example_world).1 = inr r
    /\ total_score r = 7
    /\ sum_values (component_scores r) = 7
    /\ risk_category r = "HIGH"
    /\ 0 <= total_score r <= 8.
Proof.
  eexists. split; [vm_compute; reflexivity|].
  match goal with |- context [component_scores ?r] => set (res := r) end.
  destruct (calculate_score_total_and_category example_calculator
              (Some 25%float) (Some 45%float) (Some 55%float) (Some 70%float)
              (Some true) (Some false) (Some true) (Some "P001") example_world res)
    as (Hsum & Hb & _); [vm_compute; reflexivity|].
  split_and!; [reflexivity | by rewrite <- Hsum | reflexivity | apply Hb | apply Hb].
Defined.

(** *** [calculate_batch] *)

Lemma batch_step_result self i patient w :
  match (calculate_score self (pd_meld patient) (pd_saps_ii patient) (pd_age patient)
           (pd_platelets patient) (pd_hcc patient) (pd_cvvhd patient) (pd_vhf patient)
           (batch_patient_id i patient) w).1 with
  | inr r => (batch_step self i patient w).1 = r
  | inl e => exists now, (batch_step self i patient w).1 = error_result e now
  end.
Proof.
  unfold batch_step.
  destruct (calculate_score _ _ _ _ _ _ _ _ _ w) as [[e|r] w']; simpl; [|done].
  by eexists.
Qed.

Lemma batch_loop_spec self patients : forall i results w,
  length (batch_loop self i patients results w).1 = (length results + length patients)%nat
  /\ (forall k r, results !! k = Some r ->
        (batch_loop self i patients results w).1 !! k = Some r)
  /\ (forall j patient, patients !! j = Some patient ->
        exists w_j,
          (batch_loop self i patients results w).1 !! (length results + j)%nat
          = Some (batch_step self (i + j) patient w_j).1).
Proof.
  induction patients as [|p rest IH]; intros i results w; simpl.
  - split_and!; [lia | done | done].
  - destruct (batch_step self i p w) as [r w'] eqn:Hstep.
    destruct (IH (S i) (results ++ [r]) w') as (Hlen & Hold & Hnew).
    rewrite length_app in Hlen, Hnew. simpl in Hlen, Hnew.
    split_and!.
    + lia.
    + intros k r0 Hk. apply Hold. by apply lookup_app_l_Some.
    + intros [|j] patient Hj; simpl in Hj.
      * injection Hj as <-. exists w.
        rewrite !Nat.add_0_r, Hstep. simpl. apply Hold.
        by rewrite lookup_app_r, Nat.sub_diag by lia.
      * destruct (Hnew j patient Hj) as [w_j Hw]. exists w_j.
        replace (length results + S j)%nat with (length results + 1 + j)%nat by lia.
        by replace (i + S j)%nat with (S i + j)%nat by lia.
Qed.

(** C7: [calculate_batch] returns one result per patient, in input order.
    The result at position [i] is decided by patient [i] alone: if that
    patient's own calculation (in any ambient state, under any identifier)
    returns, the entry is that result up to its timestamp; if it raises, the
    entry is the failure record of that error ([valid = False],
    [total_score = -1], [risk_category = "ERROR"]), and the loop goes on to
    the remaining patients. *)
Theorem calculate_batch_isolates_failures self patients w :
  let results := (calculate_batch self patients w).1 in
  length results = length patients
  /\ forall i patient, patients !! i = Some patient ->
       exists r, results !! i = Some r
         /\ forall patient_id w',
              match (calculate_score self (pd_meld patient) (pd_saps_ii patient)
                       (pd_age patient) (pd_platelets patient) (pd_hcc patient)
                       (pd_cvvhd patient) (pd_vhf patient) patient_id w').1 with
              | inr r' => r = with_timestamp (timestamp r) r'
              | inl e =>
                  r = error_result e (timestamp r)
                  /\ valid r = false /\ total_score r = -1 /\ risk_category r = "ERROR"
              end.
Proof.
  simpl. unfold calculate_batch.
  destruct (batch_loop_spec self patients 0%nat [] w) as (Hlen & _ & Hnew).
  split; [done|].
  intros i patient Hi. destruct (Hnew i patient Hi) as [w_i Hw]. simpl in Hw.
  eexists. split; [exact Hw|].
  intros patient_id w'.
  pose proof (batch_step_result self i patient w_i) as Hstep.
  pose proof (calculate_score_world self (pd_meld patient) (pd_saps_ii patient)
                (pd_age patient) (pd_platelets patient) (pd_hcc patient)
                (pd_cvvhd patient) (pd_vhf patient)
                (batch_patient_id i patient) patient_id w_i w') as Hworld.
  destruct (calculate_score _ _ _ _ _ _ _ _ (batch_patient_id i patient) w_i).1
    as [e|r0],
    (calculate_score _ _ _ _ _ _ _ _ patient_id w').1 as [e'|r']; try done.
  - destruct Hstep as [now ->]. by subst e'.
  - by rewrite Hstep.
Qed.

(** A batch of three: the second patient's MELD is out of range. *)
Example calculate_batch_example :
  let patient meld :=
    {| pd_patient_id := None; pd_meld := Some meld; pd_saps_ii := Some 45%float;
       pd_age := Some 55%float; pd_platelets := Some 70%float;
       pd_hcc := Some true; pd_cvvhd := Some false; pd_vhf := None |} in
  let results :=
    (calculate_batch example_calculator [patient 25%float; patient 50%float; patient 18%float]
       example_world).1 in
  (fun r => (total_score r, risk_category r, valid r, timestamp r)) <$> results
  = [(6, "HIGH", true, 0); (-1, "ERROR", false, 2); (4, "HIGH", true, 3)].
Proof. vm_compute. reflexivity. Qed.

(** A MELD of 50 is outside 6-40: the call raises with validation enabled
    and scores the record (MELD > 20: 2 points) with validation disabled. *)
Example calculate_score_out_of_range_example :
  let call validate :=
    (calculate_score {| validate_inputs := validate; log_calculations := false |}
       (Some 50%float) None (Some 40%float) None (Some false) None None None
       example_world).1 in
  call true = inl (ValueError (range_message "MELD score" (6, 40) 50%float))
  /\ match call false with
     | inr r => (total_score r, map_to_list (component_scores r), valid r)
                = (2, [("MELD", 2); ("AGE", 0); ("HCC", 0)], false)
     | inl _ => False
     end.
Proof. split; vm_compute; reflexivity. Qed.

(** * Further properties *)

(** ** [calculate_score]: the remaining fields of the result *)

Lemma component_block_details_length {A : Type} key hit hit_line miss_line warning
    (value : option A) t :
  length (t_details (component_block key hit hit_line miss_line warning value t)) =
  (length (t_details t) + (1 - absent value))%nat.
Proof.
  unfold component_block. destruct value as [x|]; [destruct (hit x)|]; simpl;
    rewrite ?length_app; simpl; lia.
Qed.

Lemma score_components_details_length meld saps_ii age platelets hcc cvvhd vhf :
  length (t_details (score_components meld saps_ii age platelets hcc cvvhd vhf)) =
  (7 - absent_count meld saps_ii age platelets hcc cvvhd vhf)%nat.
Proof.
  unfold score_components, vhf_block, cvvhd_block, hcc_block, platelets_block,
    age_block, saps_ii_block, meld_block, absent_count.
  rewrite !component_block_details_length. simpl.
  destruct meld, saps_ii, age, platelets, hcc, cvvhd, vhf; reflexivity.
Qed.

Lemma missing_warnings_length meld saps_ii age platelets hcc cvvhd vhf :
  length (missing_warnings meld saps_ii age platelets hcc cvvhd vhf) =
  absent_count meld saps_ii age platelets hcc cvvhd vhf.
Proof.
  destruct meld, saps_ii, age, platelets, hcc, cvvhd, vhf; reflexivity.
Qed.

Lemma calculate_score_risk_fields
    self meld saps_ii age platelets hcc cvvhd vhf patient_id w r :
  (calculate_score self meld saps_ii age platelets hcc cvvhd vhf patient_id w).1 = inr r ->
  let t := score_components meld saps_ii age platelets hcc cvvhd vhf in
  let found := _determine_risk_category (t_total_score t) in
  details r = t_details t
  /\ risk_category r = found.1
  /\ risk_description r = rc_description found.2
  /\ recommendation r = rc_recommendation found.2
  /\ mortality_risk r = rc_mortality_rate found.2.
Proof.
  unfold calculate_score, datetime_now.
  destruct (if validate_inputs self then _ else _) as [e|[]]; [done|].
  destruct (_determine_risk_category _) as [category risk_data] eqn:Hcat.
  simpl. by intros [= <-].
Qed.

(** X1: the warnings of a returned result are the per-variable warnings of
    the absent variables, in block order, followed by the "too many missing"
    warning exactly when the result is not valid. *)
Theorem calculate_score_warnings
    self meld saps_ii age platelets hcc cvvhd vhf patient_id w r :
  (calculate_score self meld saps_ii age platelets hcc cvvhd vhf patient_id w).1 = inr r ->
  let n := absent_count meld saps_ii age platelets hcc cvvhd vhf in
  warnings r =
    missing_warnings meld saps_ii age platelets hcc cvvhd vhf
    ++ (if valid r then [] else [too_many_missing_warning n])
  /\ length (warnings r) = (n + if bool_decide (2 < n)%nat then 1 else 0)%nat
  /\ (warnings r = [] <-> n = 0%nat).
Proof.
  intros Hr. apply calculate_score_inr in Hr as (_ & _ & _ & Hval & Hw & _).
  simpl in *. rewrite score_components_warnings in Hw.
  fold (missing_warnings meld saps_ii age platelets hcc cvvhd vhf) in Hw.
  rewrite _check_missing_data_length in Hval, Hw.
  fold (absent_count meld saps_ii age platelets hcc cvvhd vhf) in Hval, Hw.
  pose proof (missing_warnings_length meld saps_ii age platelets hcc cvvhd vhf) as Hlen.
  set (n := absent_count meld saps_ii age platelets hcc cvvhd vhf) in *.
  assert (Hw' : warnings r =
    missing_warnings meld saps_ii age platelets hcc cvvhd vhf
    ++ (if valid r then [] else [too_many_missing_warning n])).
  { rewrite Hw. destruct (valid r); [by rewrite app_nil_r | done]. }
  split_and!; [done | |].
  - rewrite Hw', length_app, Hlen, Hval.
    repeat case_bool_decide; simpl; lia.
  - rewrite Hw', Hval. split.
    + intros Hnil. apply (f_equal length) in Hnil.
      rewrite length_app, Hlen in Hnil. simpl in Hnil. lia.
    + intros Hn. rewrite bool_decide_true by lia. rewrite app_nil_r.
      apply length_zero_iff_nil. lia.
Qed.

Lemma calculate_score_warnings_witness :
  exists r,
    (calculate_score example_calculator (Some 25%float) None None (Some 70%float)
       (Some true) None (Some false) None example_world).1 = inr r
    /\ length (warnings r) = 4%nat
    /\ valid r = false.
Proof.
  eexists. split; [vm_compute; reflexivity|].
  match goal with |- context [warnings ?r] => set (res := r) end.
  destruct (calculate_score_warnings example_calculator (Some 25%float) None None
              (Some 70%float) (Some true) None (Some false) None example_world res)
    as (_ & Hlen & _); [vm_compute; reflexivity|].
  split; [exact Hlen | reflexivity].
Defined.

Lemma elem_of_missing_if {A : Type} (value : option A) key k :
  k ∈ missing_if value key <-> value = None /\ k = key.
Proof.
  destruct value; simpl; [rewrite elem_of_nil | rewrite list_elem_of_singleton];
    naive_solver.
Qed.

Lemma _check_missing_data_elem meld saps_ii age platelets hcc cvvhd vhf k :
  k ∈ _check_missing_data meld saps_ii age platelets hcc cvvhd vhf <->
  (meld = None /\ k = "MELD") \/ (saps_ii = None /\ k = "SAPS_II")
  \/ (age = None /\ k = "AGE") \/ (platelets = None /\ k = "PLATELETS")
  \/ (hcc = None /\ k = "HCC") \/ (cvvhd = None /\ k = "CVVHD")
  \/ (vhf = None /\ k = "VHF").
Proof.
  unfold _check_missing_data. rewrite !elem_of_app, !elem_of_missing_if. tauto.
Qed.

Lemma elem_of_component_keys k :
  k ∈ component_keys <->
  k = "MELD" \/ k = "SAPS_II" \/ k = "AGE" \/ k = "PLATELETS"
  \/ k = "HCC" \/ k = "CVVHD" \/ k = "VHF".
Proof.
  unfold component_keys. rewrite !elem_of_cons, elem_of_nil. tauto.
Qed.

Lemma score_components_lookup_other meld saps_ii age platelets hcc cvvhd vhf k :
  k ∉ component_keys ->
  t_component_scores (score_components meld saps_ii age platelets hcc cvvhd vhf) !! k = None.
Proof.
  rewrite elem_of_component_keys. intros Hk.
  unfold score_components, vhf_block, cvvhd_block, hcc_block, platelets_block,
    age_block, saps_ii_block, meld_block.
  rewrite !component_block_lookup_ne by (intros <-; tauto).
  apply lookup_empty.
Qed.

Lemma component_block_size {A : Type} key hit hit_line miss_line warning
    (value : option A) t :
  t_component_scores t !! key = None ->
  size (t_component_scores (component_block key hit hit_line miss_line warning value t)) =
  (size (t_component_scores t) + (1 - absent value))%nat.
Proof.
  intros Hfresh. unfold component_block.
  destruct value as [x|]; [destruct (hit x)|]; simpl;
    rewrite ?map_size_insert_None by done; lia.
Qed.

Lemma score_components_size meld saps_ii age platelets hcc cvvhd vhf :
  size (t_component_scores (score_components meld saps_ii age platelets hcc cvvhd vhf)) =
  (7 - absent_count meld saps_ii age platelets hcc cvvhd vhf)%nat.
Proof.
  unfold score_components, vhf_block, cvvhd_block, hcc_block, platelets_block,
    age_block, saps_ii_block, meld_block, absent_count.
  repeat (rewrite component_block_size
            by by rewrite ?component_block_lookup_ne by done).
  change (size (t_component_scores tally_empty)) with 0%nat.
  destruct meld, saps_ii, age, platelets, hcc, cvvhd, vhf; reflexivity.
Qed.

(** X2: in a returned result each of the seven keys is either scored in
    [component_scores] or listed by [_check_missing_data], never both, and
    no other key is scored; there is one detail line per scored component;
    and every recorded value is 0 or the points [TRS_POINTS] gives the
    component. *)
Theorem calculate_score_components_partition
    self meld saps_ii age platelets hcc cvvhd vhf patient_id w r :
  (calculate_score self meld saps_ii age platelets hcc cvvhd vhf patient_id w).1 = inr r ->
  (forall k, k ∈ component_keys ->
     (k ∈ _check_missing_data meld saps_ii age platelets hcc cvvhd vhf
      <-> component_scores r !! k = None))
  /\ (forall k, k ∉ component_keys -> component_scores r !! k = None)
  /\ size (component_scores r) =
       (7 - length (_check_missing_data meld saps_ii age platelets hcc cvvhd vhf))%nat
  /\ length (details r) = size (component_scores r)
  /\ (forall k v, component_scores r !! k = Some v -> v = 0 \/ TRS_POINTS !! k = Some v).
Proof.
  intros Hr. pose proof (calculate_score_risk_fields _ _ _ _ _ _ _ _ _ _ _ Hr) as (Hd & _).
  apply calculate_score_inr in Hr as (_ & Hsc & _). simpl in *.
  destruct (score_components_lookup meld saps_ii age platelets hcc cvvhd vhf)
    as (Hm & Hs & Ha & Hp & Hh & Hc & Hv).
  rewrite <- Hsc in Hm, Hs, Ha, Hp, Hh, Hc, Hv.
  split_and!.
  - intros k Hk. rewrite _check_missing_data_elem.
    apply elem_of_component_keys in Hk as [->|[->|[->|[->|[->|[->| ->]]]]]];
      rewrite ?Hm, ?Hs, ?Ha, ?Hp, ?Hh, ?Hc, ?Hv, fmap_None; naive_solver.
  - intros k Hk. rewrite Hsc. by apply score_components_lookup_other.
  - by rewrite Hsc, score_components_size, _check_missing_data_length.
  - by rewrite Hd, Hsc, score_components_details_length, score_components_size.
  - intros k v Hkv.
    destruct (decide (k ∈ component_keys)) as [Hk|Hk].
    + apply elem_of_component_keys in Hk as [->|[->|[->|[->|[->|[->| ->]]]]]];
        rewrite ?Hm, ?Hs, ?Ha, ?Hp, ?Hh, ?Hc, ?Hv in Hkv;
        apply fmap_Some in Hkv as (x & _ & ->);
        match goal with |- context [if ?b then _ else _] => destruct b end;
        first [by left | by right].
    + rewrite Hsc, score_components_lookup_other in Hkv by done. done.
Qed.

Lemma calculate_score_components_partition_witness :
  exists r,
    (calculate_score example_calculator (Some 25%float) None None (Some 70%float)
       (Some true) None (Some false) None example_world).1 = inr r
    /\ size (component_scores r) = 4%nat
    /\ length (details r) = 4%nat.
Proof.
  eexists. split; [vm_compute; reflexivity|].
  match goal with |- context [component_scores ?r] => set (res := r) end.
  destruct (calculate_score_components_partition example_calculator (Some 25%float)
              None None (Some 70%float) (Some true) None (Some false) None
              example_world res)
    as (_ & _ & Hsize & Hlen & _); [vm_compute; reflexivity|].
  split; [exact Hsize | by rewrite Hlen, Hsize].
Defined.

(** X3: the risk fields of a returned result are those of one item of
    [RISK_CATEGORIES], and that item is LOW exactly for totals up to 1, MEDIUM
    exactly for 2 and HIGH exactly from 3 on. *)
Theorem calculate_score_risk_entry
    self meld saps_ii age platelets hcc cvvhd vhf patient_id w r :
  (calculate_score self meld saps_ii age platelets hcc cvvhd vhf patient_id w).1 = inr r ->
  (exists entry,
     (risk_category r, entry) ∈ RISK_CATEGORIES
     /\ risk_description r = rc_description entry
     /\ recommendation r = rc_recommendation entry
     /\ mortality_risk r = rc_mortality_rate entry)
  /\ (risk_category r = "LOW" <-> total_score r <= 1)
  /\ (risk_category r = "MEDIUM" <-> total_score r = 2)
  /\ (risk_category r = "HIGH" <-> 3 <= total_score r).
Proof.
  intros Hr.
  pose proof (calculate_score_risk_fields _ _ _ _ _ _ _ _ _ _ _ Hr)
    as (_ & Hcat & Hdesc & Hrec & Hmort).
  apply calculate_score_inr in Hr as (Htot & _). simpl in *.
  rewrite <- Htot in Hcat, Hdesc, Hrec, Hmort.
  rewrite _determine_risk_category_cases in Hcat, Hdesc, Hrec, Hmort.
  destruct (Z.leb_spec (total_score r) 1); [|destruct (Z.eqb_spec (total_score r) 2)];
    simpl in *; rewrite Hcat.
  - split_and!; [exists RISK_LOW; split_and!; try done; set_solver | | |];
      (split; [try done; lia | try done; lia]).
  - split_and!; [exists RISK_MEDIUM; split_and!; try done; set_solver | | |];
      (split; [try done; lia | try done; lia]).
  - split_and!; [exists RISK_HIGH; split_and!; try done; set_solver | | |];
      (split; [try done; lia | try done; lia]).
Qed.

Lemma calculate_score_risk_entry_witness :
  exists r,
    (calculate_score example_calculator (Some 25%float) (Some 40%float) (Some 50%float)
       (Some 90%float) (Some false) (Some false) (Some false) None
       example_world).1 = inr r
    /\ total_score r = 2
    /\ risk_category r = "MEDIUM".
Proof.
  eexists. split; [vm_compute; reflexivity|].
  match goal with |- context [risk_category ?r] => set (res := r) end.
  destruct (calculate_score_risk_entry example_calculator (Some 25%float)
              (Some 40%float) (Some 50%float) (Some 90%float) (Some false)
              (Some false) (Some false) None example_world res)
    as (_ & _ & Hmed & _); [vm_compute; reflexivity|].
  split; [reflexivity | by apply Hmed].
Defined.

(** X4: [_determine_risk_category] answers for every integer with an item of
    [RISK_CATEGORIES] (the fallback subscripts never miss), and a higher score
    never gets a lower mortality rate. *)
Theorem _determine_risk_category_monotone :
  (forall score, _determine_risk_category score ∈ RISK_CATEGORIES)
  /\ (forall score1 score2, score1 <= score2 ->
        PrimFloat.leb (rc_mortality_rate (_determine_risk_category score1).2)
                      (rc_mortality_rate (_determine_risk_category score2).2) = true).
Proof.
  split.
  - intros score. rewrite _determine_risk_category_cases.
    destruct (_ <=? 1); [|destruct (_ =? 2)]; set_solver.
  - intros score1 score2 Hle. rewrite !_determine_risk_category_cases.
    destruct (Z.leb_spec score1 1), (Z.leb_spec score2 1),
      (Z.eqb_spec score1 2), (Z.eqb_spec score2 2); simpl; try reflexivity; lia.
Qed.

(** ** [calculate_score]: which error, and what it does to the ambient state *)

Lemma validate_range_cases label key value :
  validate_range label key value =
  match value with
  | Some x =>
      if PrimFloat.leb (float_of_int (variable_range key).1) x
         && PrimFloat.leb x (float_of_int (variable_range key).2)
      then inr tt
      else inl (ValueError (range_message label (variable_range key) x))
  | None => inr tt
  end.
Proof.
  unfold validate_range, int_le_float, float_le_int.
  destruct value as [x|]; [|done]. by destruct (_ && _).
Qed.

Lemma calculate_score_validation_error
    self meld saps_ii age platelets hcc cvvhd vhf patient_id w e :
  validate_inputs self = true ->
  _validate_inputs meld saps_ii age platelets hcc cvvhd vhf = inl e ->
  (calculate_score self meld saps_ii age platelets hcc cvvhd vhf patient_id w).1 = inl e.
Proof.
  intros Hon He. unfold calculate_score, datetime_now. by rewrite Hon, He.
Qed.

(** X5: with validation enabled the error raised is the one of the first
    variable out of range in the order MELD, SAPS II, age, platelets, and its
    message names that variable's label, bounds and value. *)
Theorem calculate_score_first_range_error
    self meld saps_ii age platelets hcc cvvhd vhf patient_id w :
  validate_inputs self = true ->
  let outcome :=
    (calculate_score self meld saps_ii age platelets hcc cvvhd vhf patient_id w).1 in
  (forall x, meld = Some x -> out_of_range 6 40 meld ->
     outcome = inl (ValueError (range_message "MELD score" (6, 40) x)))
  /\ (forall x, ~ out_of_range 6 40 meld ->
        saps_ii = Some x -> out_of_range 0 163 saps_ii ->
        outcome = inl (ValueError (range_message "SAPS II score" (0, 163) x)))
  /\ (forall x, ~ out_of_range 6 40 meld -> ~ out_of_range 0 163 saps_ii ->
        age = Some x -> out_of_range 18 80 age ->
        outcome = inl (ValueError (range_message "Age" (18, 80) x)))
  /\ (forall x, ~ out_of_range 6 40 meld -> ~ out_of_range 0 163 saps_ii ->
        ~ out_of_range 18 80 age ->
        platelets = Some x -> out_of_range 10 500 platelets ->
        outcome = inl (ValueError (range_message "Platelet count" (10, 500) x))).
Proof.
  intros Hon. simpl.
  assert (Hm : validate_range "MELD score" "MELD" meld =
    match meld with
    | Some x => if PrimFloat.leb 6 x && PrimFloat.leb x 40 then inr tt
                else inl (ValueError (range_message "MELD score" (6, 40) x))
    | None => inr tt end) by apply validate_range_cases.
  assert (Hs : validate_range "SAPS II score" "SAPS_II" saps_ii =
    match saps_ii with
    | Some x => if PrimFloat.leb 0 x && PrimFloat.leb x 163 then inr tt
                else inl (ValueError (range_message "SAPS II score" (0, 163) x))
    | None => inr tt end) by apply validate_range_cases.
  assert (Ha : validate_range "Age" "AGE" age =
    match age with
    | Some x => if PrimFloat.leb 18 x && PrimFloat.leb x 80 then inr tt
                else inl (ValueError (range_message "Age" (18, 80) x))
    | None => inr tt end) by apply validate_range_cases.
  assert (Hp : validate_range "Platelet count" "PLATELETS" platelets =
    match platelets with
    | Some x => if PrimFloat.leb 10 x && PrimFloat.leb x 500 then inr tt
                else inl (ValueError (range_message "Platelet count" (10, 500) x))
    | None => inr tt end) by apply validate_range_cases.
  assert (Hin : forall lo hi v, ~ out_of_range lo hi v ->
            match v with
            | Some x => PrimFloat.leb lo x && PrimFloat.leb x hi = true
            | None => True end).
  { intros lo hi [x|] Hv; simpl in *; [|done]. by destruct (_ && _). }
  split_and!.
  - intros x -> Hout. apply calculate_score_validation_error; [done|].
    unfold _validate_inputs. rewrite Hm. simpl in Hout. by rewrite Hout.
  - intros x Hmeld -> Hout. apply calculate_score_validation_error; [done|].
    unfold _validate_inputs. rewrite Hm, Hs.
    apply Hin in Hmeld. simpl in Hout. rewrite Hout.
    destruct meld; [by rewrite Hmeld | done].
  - intros x Hmeld Hsaps -> Hout. apply calculate_score_validation_error; [done|].
    unfold _validate_inputs. rewrite Hm, Hs, Ha.
    apply Hin in Hmeld, Hsaps. simpl in Hout. rewrite Hout.
    destruct meld, saps_ii; rewrite ?Hmeld, ?Hsaps; done.
  - intros x Hmeld Hsaps Hage -> Hout. apply calculate_score_validation_error; [done|].
    unfold _validate_inputs. rewrite Hm, Hs, Ha, Hp.
    apply Hin in Hmeld, Hsaps, Hage. simpl in Hout. rewrite Hout.
    destruct meld, saps_ii, age; rewrite ?Hmeld, ?Hsaps, ?Hage; done.
Qed.

Lemma calculate_score_first_range_error_witness :
  (calculate_score example_calculator (Some 50%float) (Some 200%float) None None
     None None None None example_world).1
  = inl (ValueError (range_message "MELD score" (6, 40) 50%float)).
Proof.
  apply (calculate_score_first_range_error example_calculator (Some 50%float)
           (Some 200%float) None None None None None None example_world eq_refl);
    reflexivity.
Defined.

(** X6: a call reads the clock once and leaves it otherwise untouched; it
    only appends to the log, nothing when logging is disabled, and otherwise
    an opening record when a non-empty patient identifier is given and a
    closing record when the call returns (none when it raises), all at level
    INFO. *)
Theorem calculate_score_effects
    self meld saps_ii age platelets hcc cvvhd vhf patient_id w :
  let call := calculate_score self meld saps_ii age platelets hcc cvvhd vhf patient_id w in
  clock call.2 = clock w
  /\ ticks call.2 = S (ticks w)
  /\ exists added,
       log call.2 = log w ++ added
       /\ Forall (fun record => record.1 = INFO) added
       /\ length added =
            if log_calculations self
            then ((if truthy_str patient_id then 1 else 0)
                  + (if call.1 is inr _ then 1 else 0))%nat
            else 0%nat.
Proof.
  simpl. unfold calculate_score, datetime_now, logger_info, logger_emit.
  destruct (if validate_inputs self then _ else _) as [e|[]];
    [|destruct (_determine_risk_category _) as [category risk_data]];
    destruct (log_calculations self), (truthy_str patient_id); simpl;
    (split_and!; [done | done |]);
    rewrite <- ?(assoc_L (++));
    first [ by eexists [] ; rewrite app_nil_r
          | eexists; split_and!; [reflexivity | by repeat constructor | done] ].
Qed.

(** ** [calculate_score]: how the score moves with the record *)

Lemma risk_rate_leb score1 score2 :
  score1 <= score2 ->
  PrimFloat.leb (rc_mortality_rate (_determine_risk_category score1).2)
                (rc_mortality_rate (_determine_risk_category score2).2) = true.
Proof.
  intros Hle. rewrite !_determine_risk_category_cases.
  destruct (Z.leb_spec score1 1), (Z.leb_spec score2 1),
    (Z.eqb_spec score1 2), (Z.eqb_spec score2 2); simpl; try reflexivity; lia.
Qed.

Lemma out_of_range_less_informed lo hi v' v :
  less_informed v' v -> out_of_range lo hi v' -> out_of_range lo hi v.
Proof. by intros [->| ->]. Qed.

Lemma expected_total_less_informed
    meld saps_ii age platelets hcc cvvhd vhf meld' saps_ii' age' platelets' hcc' cvvhd' vhf' :
  less_informed meld' meld -> less_informed saps_ii' saps_ii ->
  less_informed age' age -> less_informed platelets' platelets ->
  less_informed hcc' hcc -> less_informed cvvhd' cvvhd -> less_informed vhf' vhf ->
  expected_total meld' saps_ii' age' platelets' hcc' cvvhd' vhf'
  <= expected_total meld saps_ii age platelets hcc cvvhd vhf.
Proof.
  assert (Ha : forall c p v' v, 0 <= p -> less_informed v' v ->
            points_above c p v' <= points_above c p v).
  { intros c p v' [x|] Hp [->| ->]; simpl; try destruct (PrimFloat.ltb c x); lia. }
  assert (Hb : forall c p v' v, 0 <= p -> less_informed v' v ->
            points_below c p v' <= points_below c p v).
  { intros c p v' [x|] Hp [->| ->]; simpl; try destruct (PrimFloat.ltb x c); lia. }
  assert (Hf : forall p v' v, 0 <= p -> less_informed v' v ->
            points_flag p v' <= points_flag p v).
  { intros p v' [[]|] Hp [->| ->]; simpl; lia. }
  intros Hm Hs Hg Hp Hh Hc Hv. unfold expected_total.
  pose proof (Ha 20%float 2 _ _ ltac:(lia) Hm).
  pose proof (Ha 42%float 1 _ _ ltac:(lia) Hs).
  pose proof (Ha 52%float 1 _ _ ltac:(lia) Hg).
  pose proof (Hb 78%float 1 _ _ ltac:(lia) Hp).
  pose proof (Hf 1 _ _ ltac:(lia) Hh).
  pose proof (Hf 1 _ _ ltac:(lia) Hc).
  pose proof (Hf 1 _ _ ltac:(lia) Hv). lia.
Qed.

(** X7: dropping values from a record (each variable kept or made absent)
    never turns a returning call into an error, never raises the total score
    or the mortality rate of the assigned category, and never makes an
    invalid result valid. *)
Theorem calculate_score_less_informed
    self meld saps_ii age platelets hcc cvvhd vhf
    meld' saps_ii' age' platelets' hcc' cvvhd' vhf' patient_id patient_id' w w' r :
  less_informed meld' meld -> less_informed saps_ii' saps_ii ->
  less_informed age' age -> less_informed platelets' platelets ->
  less_informed hcc' hcc -> less_informed cvvhd' cvvhd -> less_informed vhf' vhf ->
  (calculate_score self meld saps_ii age platelets hcc cvvhd vhf patient_id w).1 = inr r ->
  exists r',
    (calculate_score self meld' saps_ii' age' platelets' hcc' cvvhd' vhf'
       patient_id' w').1 = inr r'
    /\ total_score r' <= total_score r
    /\ PrimFloat.leb (mortality_risk r') (mortality_risk r) = true
    /\ (valid r' = true -> valid r = true).
Proof.
  intros Hm Hs Hg Hp Hh Hc Hv Hr.
  destruct (calculate_score self meld' saps_ii' age' platelets' hcc' cvvhd' vhf'
              patient_id' w').1 as [e|r'] eqn:Hr'.
  { assert (He : exists e, (calculate_score self meld' saps_ii' age' platelets' hcc'
                              cvvhd' vhf' patient_id' w').1 = inl e) by by eexists.
    apply calculate_score_inl in He as [Hon He].
    apply _validate_inputs_inl in He.
    assert (He' : exists e, (calculate_score self meld saps_ii age platelets hcc cvvhd
                               vhf patient_id w).1 = inl e).
    { apply calculate_score_inl. split; [done|]. apply _validate_inputs_inl.
      destruct He as [He|[He|[He|He]]];
        eauto using out_of_range_less_informed. }
    destruct He' as [e' He']. congruence. }
  exists r'. split; [done|].
  pose proof (calculate_score_risk_fields _ _ _ _ _ _ _ _ _ _ _ Hr) as (_ & _ & _ & _ & Hmr).
  pose proof (calculate_score_risk_fields _ _ _ _ _ _ _ _ _ _ _ Hr') as (_ & _ & _ & _ & Hmr').
  apply calculate_score_inr in Hr as (Htot & _ & _ & Hval & _).
  apply calculate_score_inr in Hr' as (Htot' & _ & _ & Hval' & _).
  simpl in *.
  pose proof (expected_total_less_informed _ _ _ _ _ _ _ _ _ _ _ _ _ _
                Hm Hs Hg Hp Hh Hc Hv) as Hle.
  rewrite <- !score_components_total in Hle.
  split_and!.
  - by rewrite Htot, Htot'.
  - rewrite Hmr, Hmr'. by apply risk_rate_leb.
  - rewrite Hval, Hval', !bool_decide_eq_true, !_check_missing_data_length.
    assert (Hab : forall A (v' v : option A), less_informed v' v ->
              (absent v <= absent v')%nat).
    { intros A v0' [x|] [->| ->]; simpl; lia. }
    pose proof (Hab _ _ _ Hm). pose proof (Hab _ _ _ Hs). pose proof (Hab _ _ _ Hg).
    pose proof (Hab _ _ _ Hp). pose proof (Hab _ _ _ Hh). pose proof (Hab _ _ _ Hc).
    pose proof (Hab _ _ _ Hv). lia.
Qed.

Lemma calculate_score_less_informed_witness :
  exists r',
    (calculate_score example_calculator (Some 25%float) None (Some 55%float) None
       (Some true) None (Some true) None example_world).1 = inr r'
    /\ total_score r' <= 7
    /\ PrimFloat.leb (mortality_risk r') 0.46 = true
    /\ (valid r' = true -> true = true).
Proof.
  apply (calculate_score_less_informed example_calculator
           (Some 25%float) (Some 45%float) (Some 55%float) (Some 70%float)
           (Some true) (Some false) (Some true)
           (Some 25%float) None (Some 55%float) None (Some true) None (Some true)
           (Some "P001") None example_world example_world
           {| total_score := 7;
              component_scores :=
                t_component_scores
                  (score_components (Some 25%float) (Some 45%float) (Some 55%float)
                     (Some 70%float) (Some true) (Some false) (Some true));
              risk_category := "HIGH";
              risk_description := "High Risk";
              recommendation := "Consider early tracheostomy (Day 5-7)";
              mortality_risk := 0.46;
              details :=
                t_details
                  (score_components (Some 25%float) (Some 45%float) (Some 55%float)
                     (Some 70%float) (Some true) (Some false) (Some true));
              timestamp := 0;
              valid := true;
              warnings := [] |});
    first [ by right | by left | vm_compute; reflexivity ].
Defined.

(** X8: a returned total equals [MAX_SCORE = 8] exactly when all four
    continuous variables are present and strictly beyond their cut-points and
    all three flags are present and set; it is 0 exactly when none of the
    seven is. *)
Theorem calculate_score_extremes
    self meld saps_ii age platelets hcc cvvhd vhf patient_id w r :
  (calculate_score self meld saps_ii age platelets hcc cvvhd vhf patient_id w).1 = inr r ->
  (total_score r = MAX_SCORE <->
     hit_above 20 meld /\ hit_above 42 saps_ii /\ hit_above 52 age
     /\ hit_below 78 platelets /\ hit_flag hcc /\ hit_flag cvvhd /\ hit_flag vhf)
  /\ (total_score r = 0 <->
     ~ hit_above 20 meld /\ ~ hit_above 42 saps_ii /\ ~ hit_above 52 age
     /\ ~ hit_below 78 platelets /\ ~ hit_flag hcc /\ ~ hit_flag cvvhd /\ ~ hit_flag vhf).
Proof.
  intros Hr. apply calculate_score_inr in Hr as (Htot & _). simpl in *.
  rewrite Htot, score_components_total. unfold expected_total.
  change MAX_SCORE with 8.
  assert (Ha : forall c p v, points_above c p v = p /\ hit_above c v
                             \/ points_above c p v = 0 /\ ~ hit_above c v).
  { intros c p [x|]; unfold hit_above; simpl.
    - destruct (PrimFloat.ltb c x) eqn:Hx; [left; eauto | right].
      split; [done|]. intros (y & [= <-] & Hy). congruence.
    - right. split; [done|]. by intros (y & Hy & _). }
  assert (Hb : forall c p v, points_below c p v = p /\ hit_below c v
                             \/ points_below c p v = 0 /\ ~ hit_below c v).
  { intros c p [x|]; unfold hit_below; simpl.
    - destruct (PrimFloat.ltb x c) eqn:Hx; [left; eauto | right].
      split; [done|]. intros (y & [= <-] & Hy). congruence.
    - right. split; [done|]. by intros (y & Hy & _). }
  assert (Hf : forall p v, points_flag p v = p /\ hit_flag v
                           \/ points_flag p v = 0 /\ ~ hit_flag v).
  { intros p [[]|]; unfold hit_flag; simpl; [by left | by right | by right]. }
  destruct (Ha 20%float 2 meld) as [[-> ?]|[-> ?]],
    (Ha 42%float 1 saps_ii) as [[-> ?]|[-> ?]],
    (Ha 52%float 1 age) as [[-> ?]|[-> ?]],
    (Hb 78%float 1 platelets) as [[-> ?]|[-> ?]],
    (Hf 1 hcc) as [[-> ?]|[-> ?]], (Hf 1 cvvhd) as [[-> ?]|[-> ?]],
    (Hf 1 vhf) as [[-> ?]|[-> ?]];
    (split; split; intros; first [lia | tauto]).
Qed.

Lemma calculate_score_extremes_witness :
  exists r,
    (calculate_score example_calculator (Some 30%float) (Some 50%float) (Some 60%float)
       (Some 50%float) (Some true) (Some true) (Some true) None example_world).1 = inr r
    /\ total_score r = MAX_SCORE.
Proof.
  eexists. split; [vm_compute; reflexivity|].
  match goal with |- total_score ?r = _ => set (res := r) end.
  destruct (calculate_score_extremes example_calculator (Some 30%float) (Some 50%float)
              (Some 60%float) (Some 50%float) (Some true) (Some true) (Some true) None
              example_world res) as [Hmax _]; [vm_compute; reflexivity|].
  apply Hmax. unfold hit_above, hit_below, hit_flag. split_and!; eauto.
Defined.

(** ** [calculate_batch]: failure entries, effects and chunking *)




Lemma error_records_app records1 records2 :
  error_records (records1 ++ records2) =
  (error_records records1 + error_records records2)%nat.
Proof. unfold error_records. by rewrite List.filter_app, length_app. Qed.

Lemma batch_step_effects self i patient w :
  let step := batch_step self i patient w in
  clock step.2 = clock w
  /\ exists added,
       log step.2 = log w ++ added
       /\ if is_failure step.1
          then ticks step.2 = (ticks w + 2)%nat /\ error_records added = 1%nat
          else ticks step.2 = (ticks w + 1)%nat /\ error_records added = 0%nat.
Proof.
  simpl. unfold batch_step, calculate_score, datetime_now, logger_error, logger_info,
    logger_emit, is_failure.
  destruct (if validate_inputs self then _ else _) as [e|[]].
  - destruct (log_calculations self && truthy_str _); simpl;
      (split; [done|]); rewrite <- ?(assoc_L (++));
      (eexists; split; [reflexivity|]); split; [lia | done | lia | done].
  - rewrite _determine_risk_category_cases.
    destruct (_ <=? 1); [|destruct (_ =? 2)];
      destruct (log_calculations self), (truthy_str _); simpl;
      (split; [done|]); rewrite <- ?(assoc_L (++));
      first [ by exists []; rewrite app_nil_r; split; [|split; [lia|]]
            | eexists; split; [reflexivity|]; split; [lia | done] ].
Qed.

Lemma batch_loop_effects self patients : forall i results w,
  let out := batch_loop self i patients results w in
  clock out.2 = clock w
  /\ exists new added,
       out.1 = results ++ new
       /\ log out.2 = log w ++ added
       /\ ticks out.2 = (ticks w + length patients + length (List.filter is_failure new))%nat
       /\ error_records added = length (List.filter is_failure new).
Proof.
  induction patients as [|p rest IH]; intros i results w; simpl.
  - split; [done|]. exists [], []. rewrite !app_nil_r. split_and!; try done. simpl. lia.
  - pose proof (batch_step_effects self i p w) as Hstep. simpl in Hstep.
    destruct (batch_step self i p w) as [r w1]. simpl in Hstep.
    destruct Hstep as (Hclock & added1 & Hlog1 & Hcase).
    destruct (IH (S i) (results ++ [r]) w1) as (Hclock' & new & added2 & Hres & Hlog2 & Ht & He).
    split; [congruence|].
    exists (r :: new), (added1 ++ added2).
    split_and!.
    + by rewrite Hres, <- (assoc_L (++)).
    + by rewrite Hlog2, Hlog1, <- (assoc_L (++)).
    + rewrite Ht. simpl. destruct (is_failure r); simpl; lia.
    + rewrite error_records_app, He. simpl. destruct (is_failure r); simpl; lia.
Qed.

(** X10: a batch leaves the clock function untouched and only appends to the
    log; it reads the clock once per patient and once more per failure
    record, and the records it logs at level ERROR are as many as the failure
    records it returns. *)
Theorem calculate_batch_effects self patients w :
  let out := calculate_batch self patients w in
  let failures := length (List.filter is_failure out.1) in
  clock out.2 = clock w
  /\ ticks out.2 = (ticks w + length patients + failures)%nat
  /\ exists added, log out.2 = log w ++ added /\ error_records added = failures.
Proof.
  simpl. unfold calculate_batch.
  destruct (batch_loop_effects self patients 0%nat [] w)
    as (Hclock & new & added & Hres & Hlog & Ht & He).
  simpl in Hres. rewrite Hres. split_and!; [done | done |].
  by exists added.
Qed.

Lemma batch_loop_acc self patients : forall i results w,
  batch_loop self i patients results w =
  (results ++ (batch_loop self i patients [] w).1, (batch_loop self i patients [] w).2).
Proof.
  induction patients as [|p rest IH]; intros i results w; simpl.
  - by rewrite app_nil_r.
  - destruct (batch_step self i p w) as [r w1].
    rewrite (IH (S i) (results ++ [r]) w1), (IH (S i) [r] w1). simpl.
    by rewrite <- (assoc_L (++)).
Qed.

Lemma batch_loop_app self patients1 patients2 : forall i results w,
  batch_loop self i (patients1 ++ patients2) results w =
  batch_loop self (i + length patients1) patients2
    (batch_loop self i patients1 results w).1 (batch_loop self i patients1 results w).2.
Proof.
  induction patients1 as [|p rest IH]; intros i results w; simpl.
  - by rewrite Nat.add_0_r.
  - destruct (batch_step self i p w) as [r w1]. rewrite IH.
    by replace (S i + length rest)%nat with (i + S (length rest))%nat by lia.
Qed.

Lemma batch_loop_index self patients : forall i j results w,
  Forall (fun patient => is_Some (pd_patient_id patient)) patients ->
  batch_loop self i patients results w = batch_loop self j patients results w.
Proof.
  induction patients as [|p rest IH]; intros i j results w Hids; simpl; [done|].
  apply Forall_cons in Hids as [[s Hs] Hrest].
  assert (Hstep : batch_step self i p w = batch_step self j p w).
  { unfold batch_step, batch_patient_id. by rewrite Hs. }
  rewrite Hstep. destruct (batch_step self j p w) as [r w1]. by apply IH.
Qed.

(** X11: a batch over [patients1 ++ patients2] returns for the first part
    exactly what the batch over [patients1] alone returns; when every patient
    of the second part carries a patient identifier, the whole batch equals
    the batch over [patients1] followed by the batch over [patients2] run in
    the ambient state the first one left; and the empty batch returns the
    empty list and changes nothing. *)
Theorem calculate_batch_chunks self patients1 patients2 w :
  let first := calculate_batch self patients1 w in
  let whole := calculate_batch self (patients1 ++ patients2) w in
  take (length patients1) whole.1 = first.1
  /\ (Forall (fun patient => is_Some (pd_patient_id patient)) patients2 ->
      whole.1 = first.1 ++ (calculate_batch self patients2 first.2).1
      /\ whole.2 = (calculate_batch self patients2 first.2).2)
  /\ calculate_batch self [] w = ([], w).
Proof.
  simpl. unfold calculate_batch.
  rewrite batch_loop_app, batch_loop_acc. simpl.
  destruct (batch_loop_spec self patients1 0%nat [] w) as (Hlen & _).
  simpl in Hlen. split_and!.
  - by rewrite take_app_length' by done.
  - intros Hids. by rewrite (batch_loop_index self patients2 (length patients1) 0%nat).
  - done.
Qed.

(** ** The optimal cut-point step: edge behaviour *)

(** X12: on a ROC that starts at the origin ([roc_curve] always returns
    [fpr[0] = tpr[0] = 0]) the reported Youden index is never below 0. *)
Theorem optimal_cutpoint_youden_nonnegative (fpr tpr thresholds : list float) c :
  optimal_cutpoint fpr tpr thresholds = Some c ->
  fpr !! 0%nat = Some 0%float -> tpr !! 0%nat = Some 0%float ->
  PrimFloat.ltb (youden_index c) 0 = false.
Proof.
  intros Hc Hf Ht.
  destruct (optimal_cutpoint_Some _ _ _ _ Hc) as (s & Hs & Hidx & Hyi & _).
  destruct (np_argmax_spec _ _ Hidx) as (m & Hm & Hmax & _).
  assert (m = youden_index c) as -> by congruence.
  apply (Hmax 0%nat). by rewrite (np_sub_lookup _ _ _ _ _ _ Hs Ht Hf).
Qed.

Lemma optimal_cutpoint_youden_nonnegative_witness :
  exists c,
    optimal_cutpoint cohort_fpr cohort_tpr cohort_thresholds = Some c
    /\ PrimFloat.ltb (youden_index c) 0 = false.
Proof.
  eexists. split; [vm_compute; reflexivity|].
  match goal with |- context [youden_index ?c] => set (cut := c) end.
  apply (optimal_cutpoint_youden_nonnegative cohort_fpr cohort_tpr cohort_thresholds cut);
    reflexivity.
Defined.

(** X13: on three arrays of one length, as [roc_curve] returns them, the
    step fails exactly when they are empty ([np.argmax] raises [ValueError]
    on an empty array); otherwise the selected index lies within the
    arrays. *)
Theorem optimal_cutpoint_defined (fpr tpr thresholds : list float) :
  length tpr = length fpr -> length thresholds = length fpr ->
  (optimal_cutpoint fpr tpr thresholds = None <-> fpr = [])
  /\ (forall c, optimal_cutpoint fpr tpr thresholds = Some c ->
        (optimal_idx c < length fpr)%nat).
Proof.
  intros Htpr Hthr. split.
  - split.
    + intros Hnone. destruct fpr as [|f fpr']; [done|].
      destruct (optimal_cutpoint_total (f :: fpr') tpr thresholds Htpr Hthr) as [c Hc];
        [done | congruence].
    + intros ->. unfold optimal_cutpoint.
      rewrite np_sub_same_length by done. by destruct tpr.
  - intros c Hc.
    destruct (optimal_cutpoint_Some _ _ _ _ Hc)
      as (_ & _ & _ & _ & _ & _ & fp & Hfp & _).
    by apply lookup_lt_Some in Hfp.
Qed.

Lemma optimal_cutpoint_defined_witness :
  (optimal_cutpoint tied_fpr tied_tpr tied_thresholds = None <-> tied_fpr = [])
  /\ (forall c, optimal_cutpoint tied_fpr tied_tpr tied_thresholds = Some c ->
        (optimal_idx c < length tied_fpr)%nat).
Proof.
  apply (optimal_cutpoint_defined tied_fpr tied_tpr tied_thresholds); reflexivity.
Defined.

(** Arrays of different lengths: one true-positive rate is broadcast against
    the false-positive rates, and the step then fails unless index 0 is
    selected ([tpr[optimal_idx]] is out of bounds); arrays of lengths 2 and 3
    cannot be subtracted. *)
Example optimal_cutpoint_broadcast_example :
  np_sub [1]%float [0; 0.5]%float = Some [1; 0.5]%float
  /\ (optimal_idx <$> optimal_cutpoint [0; 0.5]%float [1]%float [infinity; 0.5]%float)
     = Some 0%nat
  /\ optimal_cutpoint [0.5; 0.1]%float [0.2]%float [infinity; 0.5]%float = None
  /\ np_sub [1; 1]%float [0; 0.5; 1]%float = None.
Proof. split_and!; vm_compute; reflexivity. Qed.

(** ** The monotone pass of [generate_km_data] *)

Section MonotonePass.
Local Open Scope nat_scope.

Lemma monotone_step_at pre x y rest :
  monotone_step (pre ++ x :: y :: rest) (S (length pre)) =
  pre ++ x :: (if PrimFloat.ltb x y then x else y) :: rest.
Proof.
  unfold monotone_step.
  rewrite lookup_app_r by lia.
  replace (S (length pre) - length pre) with 1 by lia. simpl.
  rewrite Nat.sub_0_r, lookup_app_r by lia. rewrite Nat.sub_diag. simpl.
  destruct (PrimFloat.ltb x y); [|done].
  rewrite insert_app_r_alt by lia.
  by replace (S (length pre) - length pre) with 1 by lia.
Qed.

Lemma foldl_monotone_step rest : forall pre x,
  foldl monotone_step (pre ++ x :: rest) (seq (S (length pre)) (length rest)) =
  pre ++ x :: capped_by x rest.
Proof.
  induction rest as [|y rest IH]; intros pre x; simpl; [done|].
  rewrite monotone_step_at.
  set (kept := if PrimFloat.ltb x y then x else y).
  specialize (IH (pre ++ [x]) kept).
  rewrite length_app in IH. simpl in IH.
  replace (length pre + 1) with (S (length pre)) in IH by lia.
  by rewrite <- !(assoc_L (++)) in IH.
Qed.

Lemma ensure_monotonic_decrease_cons x rest :
  ensure_monotonic_decrease (x :: rest) = x :: capped_by x rest.
Proof.
  unfold ensure_monotonic_decrease. simpl. rewrite Nat.sub_0_r.
  apply (foldl_monotone_step rest [] x).
Qed.

Lemma capped_by_length rest : forall x, length (capped_by x rest) = length rest.
Proof. induction rest as [|y rest IH]; intros x; simpl; [done | by rewrite IH]. Qed.

Lemma capped_by_never_increases rest : forall x, never_increases (x :: capped_by x rest).
Proof.
  induction rest as [|y rest IH]; intros x [|i] a b Ha Hb; simpl in *; try done.
  - injection Ha as <-. injection Hb as <-.
    destruct (PrimFloat.ltb x y) eqn:Hxy; [apply float_ltb_irrefl | done].
  - by eapply (IH _ i).
Qed.

Lemma capped_by_below rest : forall x i a b,
  rest !! i = Some a -> capped_by x rest !! i = Some b -> PrimFloat.ltb a b = false.
Proof.
  induction rest as [|y rest IH]; intros x [|i] a b Ha Hb; simpl in *; try done.
  - injection Ha as <-. injection Hb as <-.
    destruct (PrimFloat.ltb x y) eqn:Hxy.
    + apply float_leb_not_ltb. by apply float_ltb_leb.
    + apply float_ltb_irrefl.
  - by eapply IH.
Qed.

Lemma capped_by_fixed rest : forall x,
  never_increases (x :: rest) -> capped_by x rest = rest.
Proof.
  induction rest as [|y rest IH]; intros x Hmono; simpl; [done|].
  rewrite (Hmono 0 x y) by done. f_equal. apply IH.
  intros i a b Ha Hb. by apply (Hmono (S i)).
Qed.

(** X14: the pass keeps the length and the first entry; afterwards no entry
    exceeds the one before it, and no entry exceeds what it was before the
    pass; an array that already never increases is left as it is, so the pass
    is idempotent. *)
Theorem ensure_monotonic_decrease_spec (survival_prob : list float) :
  let out := ensure_monotonic_decrease survival_prob in
  length out = length survival_prob
  /\ out !! 0 = survival_prob !! 0
  /\ never_increases out
  /\ (forall i a b, survival_prob !! i = Some a -> out !! i = Some b ->
        PrimFloat.ltb a b = false)
  /\ (never_increases survival_prob -> out = survival_prob)
  /\ ensure_monotonic_decrease out = out.
Proof.
  simpl. destruct survival_prob as [|x rest].
  { split_and!; done. }
  rewrite !ensure_monotonic_decrease_cons.
  split_and!.
  - simpl. by rewrite capped_by_length.
  - done.
  - apply capped_by_never_increases.
  - intros [|i] a b Ha Hb; simpl in *.
    + injection Ha as <-. injection Hb as <-. apply float_ltb_irrefl.
    + by eapply capped_by_below.
  - intros Hmono. by rewrite capped_by_fixed.
  - by rewrite capped_by_fixed by apply capped_by_never_increases.
Qed.
End MonotonePass.

(** The pass on a curve with two upward steps. *)
Example ensure_monotonic_decrease_example :
  ensure_monotonic_decrease [1; 0.9; 0.95; 0.8; 0.85; 0.7]%float
  = [1; 0.9; 0.9; 0.8; 0.8; 0.7]%float.
Proof. reflexivity. Qed.

(** ** [get_component_info] and [get_all_components_info] *)

Lemma table_keys :
  dom VARIABLE_DEFINITIONS = (list_to_set component_keys : gset string)
  /\ dom TRS_POINTS = (list_to_set component_keys : gset string)
  /\ dom TRS_CUTPOINTS
     = (list_to_set ["MELD"; "SAPS_II"; "AGE"; "PLATELETS"] : gset string).
Proof. split_and!; vm_compute; reflexivity. Qed.



Lemma definition_dict_lookup d :
  is_Some (definition_dict d !! "name")
  /\ is_Some (definition_dict d !! "unit")
  /\ is_Some (definition_dict d !! "description")
  /\ definition_dict d !! "range" = InfoRange <$> vd_range d
  /\ definition_dict d !! "cutpoint" = None
  /\ definition_dict d !! "points" = None.
Proof.
  unfold definition_dict. destruct (vd_range d); simpl;
    split_and!; by simplify_map_eq.
Qed.

Lemma get_component_info_inr self component d :
  VARIABLE_DEFINITIONS !! component = Some d ->
  exists info,
    get_component_info self component = inr info
    /\ is_Some (info !! "name") /\ is_Some (info !! "unit")
    /\ is_Some (info !! "description")
    /\ info !! "range" = InfoRange <$> vd_range d
    /\ info !! "cutpoint" = InfoInt <$> TRS_CUTPOINTS !! component
    /\ info !! "points" = InfoInt <$> TRS_POINTS !! component.
Proof.
  intros Hd. unfold get_component_info. rewrite Hd.
  destruct (definition_dict_lookup d) as (Hn & Hu & Hde & Hr & Hc & Hp).
  eexists. split; [reflexivity|].
  destruct (TRS_CUTPOINTS !! component), (TRS_POINTS !! component); simpl;
    split_and!; by simplify_map_eq.
Qed.


Lemma get_all_components_info_fold self components :
  forall all : gmap string (gmap string info_value),
  Forall (fun k => is_Some (VARIABLE_DEFINITIONS !! k)) components ->
  exists all' : gmap string (gmap string info_value),
    foldl (fun acc component =>
             match acc with
             | inl e => inl e
             | inr all =>
                 match get_component_info self component with
                 | inl e => inl e
                 | inr info => inr (<[component := info]> all)
                 end
             end) (inr all) components = inr all'
    /\ forall component,
         all' !! component =
         if decide (component ∈ components)
         then match get_component_info self component with
              | inr info => Some info
              | inl _ => None
              end
         else all !! component.
Proof.
  induction components as [|k rest IH]; intros all Hkeys; simpl.
  - exists all. split; [done|]. intros component.
    by destruct (decide (component ∈ [])).
  - apply Forall_cons in Hkeys as [[d Hd] Hrest].
    destruct (get_component_info_inr self k d Hd) as (info & Hinfo & _).
    rewrite Hinfo.
    destruct (IH (<[k := info]> all) Hrest) as (all' & Hfold & Hlookup).
    exists all'. split; [done|]. intros component. rewrite Hlookup.
    destruct (decide (component ∈ rest)) as [Hin|Hnot];
      destruct (decide (component ∈ k :: rest)) as [Hin'|Hnot'].
    + done.
    + exfalso. apply Hnot'. by right.
    + apply elem_of_cons in Hin' as [->|Hin']; [|done].
      by rewrite lookup_insert_eq, Hinfo.
    + rewrite lookup_insert_ne; [done|]. intros ->. apply Hnot'. by left.
Qed.

(** X16: [get_all_components_info] never raises; the dict it returns has
    seven entries, one exactly for each name [get_component_info] accepts,
    and each entry is what [get_component_info] returns for that name. *)
Theorem get_all_components_info_spec self :
  exists all,
    get_all_components_info self = inr all
    /\ size all = 7%nat
    /\ forall component,
         all !! component =
         match get_component_info self component with
         | inr info => Some info
         | inl _ => None
         end.
Proof.
  unfold get_all_components_info.
  assert (Hmem : forall k, k ∈ (map_to_list VARIABLE_DEFINITIONS).*1 <->
                           is_Some (VARIABLE_DEFINITIONS !! k)).
  { intros k. rewrite list_elem_of_fmap. split.
    - intros ([k' d] & -> & Hin). apply elem_of_map_to_list in Hin. by eexists.
    - intros [d Hd]. exists (k, d). split; [done|]. by apply elem_of_map_to_list. }
  destruct (get_all_components_info_fold self (map_to_list VARIABLE_DEFINITIONS).*1 ∅)
    as (all & Hfold & Hlookup).
  { apply Forall_forall. intros k Hk. by apply Hmem. }
  exists all. split; [done|].
  assert (Hall : forall component,
            all !! component =
            match get_component_info self component with
            | inr info => Some info
            | inl _ => None
            end).
  { intros component. rewrite Hlookup.
    destruct (decide (component ∈ (map_to_list VARIABLE_DEFINITIONS).*1)) as [Hin|Hnot];
      [done|].
    rewrite lookup_empty. unfold get_component_info.
    destruct (VARIABLE_DEFINITIONS !! component) as [d|] eqn:Hd; [|done].
    exfalso. apply Hnot, Hmem. by eexists. }
  split; [|done].
  assert (Hdom : dom all = dom VARIABLE_DEFINITIONS).
  { apply set_eq. intros component. rewrite !elem_of_dom, Hall.
    unfold get_component_info.
    destruct (VARIABLE_DEFINITIONS !! component) as [d|] eqn:Hd.
    - split; intros _; by eexists.
    - split; intros [? ?]; done. }
  rewrite <- size_dom, Hdom. destruct table_keys as (-> & _). reflexivity.
Qed.

(** ** The overlap check of [validate_constants] *)

Section OverlapCheck.
Local Open Scope Z_scope.

Lemma find_overlap_None range1 rest :
  find (ranges_overlap range1) rest = None <->
  forall j range2, rest !! j = Some range2 -> ranges_overlap range1 range2 = false.
Proof.
  split.
  - intros Hnone j range2 Hj. apply (find_none _ _ Hnone).
    apply list_elem_of_In, list_elem_of_lookup. by exists j.
  - intros Hall. destruct (find (ranges_overlap range1) rest) as [range2|] eqn:Hfind; [|done].
    apply find_some in Hfind as [Hin Hov].
    apply list_elem_of_In, list_elem_of_lookup in Hin as [j Hj].
    by rewrite (Hall j range2 Hj) in Hov.
Qed.

(** X17: the nested loop of [validate_constants] finds no overlapping pair
    exactly when no two ranges at different positions overlap, and a pair it
    reports does stand at two positions [i < j] and overlaps; ranges that do
    not overlap share no integer, and two overlapping ranges that are not
    empty share one. *)
Theorem first_overlap_spec (ranges : list (Z * Z)) :
  (first_overlap ranges = None <->
     forall i j range1 range2, (i < j)%nat ->
       ranges !! i = Some range1 -> ranges !! j = Some range2 ->
       ranges_overlap range1 range2 = false)
  /\ (forall range1 range2, first_overlap ranges = Some (range1, range2) ->
        exists i j, (i < j)%nat /\ ranges !! i = Some range1 /\ ranges !! j = Some range2
                    /\ ranges_overlap range1 range2 = true)
  /\ (forall range1 range2 score, ranges_overlap range1 range2 = false ->
        ~ (range1.1 <= score <= range1.2 /\ range2.1 <= score <= range2.2))
  /\ (forall range1 range2, range1.1 <= range1.2 -> range2.1 <= range2.2 ->
        ranges_overlap range1 range2 = true ->
        exists score, range1.1 <= score <= range1.2 /\ range2.1 <= score <= range2.2).
Proof.
  split_and!.
  - induction ranges as [|r rest IH]; simpl.
    { split; [|done]. intros _ i j range1 range2 _ Hi. done. }
    destruct (find (ranges_overlap r) rest) as [r2|] eqn:Hfind.
    + split; [done|]. intros Hall. exfalso.
      apply find_some in Hfind as [Hin Hov].
      apply list_elem_of_In, list_elem_of_lookup in Hin as [j Hj].
      rewrite (Hall 0%nat (S j) r r2) in Hov; [done | lia | done | done].
    + rewrite IH. pose proof (proj1 (find_overlap_None r rest) Hfind) as Hnone. split.
      * intros Hrest [|i] [|j] range1 range2 Hij Hi Hj; simpl in *; try lia.
        -- injection Hi as <-. by eapply Hnone.
        -- apply (Hrest i j); [lia | done | done].
      * intros Hall i j range1 range2 Hij Hi Hj.
        apply (Hall (S i) (S j)); [lia | done | done].
  - induction ranges as [|r rest IH]; simpl; [done|].
    intros range1 range2.
    destruct (find (ranges_overlap r) rest) as [r2|] eqn:Hfind.
    + intros [= <- <-]. apply find_some in Hfind as [Hin Hov].
      apply list_elem_of_In, list_elem_of_lookup in Hin as [j Hj].
      exists 0%nat, (S j). split_and!; [lia | done | done | done].
    + intros Hrest. destruct (IH _ _ Hrest) as (i & j & Hij & Hi & Hj & Hov).
      exists (S i), (S j). split_and!; [lia | done | done | done].
  - intros [lo1 hi1] [lo2 hi2] score. unfold ranges_overlap. simpl.
    destruct (Z.ltb_spec hi1 lo2), (Z.ltb_spec hi2 lo1); simpl; try done; lia.
  - intros [lo1 hi1] [lo2 hi2]. unfold ranges_overlap. simpl. intros H1 H2.
    destruct (Z.ltb_spec hi1 lo2), (Z.ltb_spec hi2 lo1); simpl; try done.
    intros _. exists (Z.max lo1 lo2). lia.
Qed.
End OverlapCheck.

(** ** [calculate_score]: what does not matter *)

(** X18: the logging flag, the patient identifier and the ambient state never
    change the outcome of a call but for the timestamp; and on a record whose
    present continuous values are all within range, enabling or disabling
    validation does not change it either: the call returns the same
    result. *)
Theorem calculate_score_irrelevant_settings
    self self' meld saps_ii age platelets hcc cvvhd vhf patient_id patient_id' w w' :
  let same_outcome (first second : exception + TRSResult) :=
    match first, second with
    | inr r, inr r' => r = with_timestamp (timestamp r) r'
    | inl e, inl e' => e = e'
    | _, _ => False
    end in
  let outcome :=
    (calculate_score self meld saps_ii age platelets hcc cvvhd vhf patient_id w).1 in
  let outcome' :=
    (calculate_score self' meld saps_ii age platelets hcc cvvhd vhf patient_id' w').1 in
  (validate_inputs self = validate_inputs self' -> same_outcome outcome outcome')
  /\ (~ (out_of_range 6 40 meld \/ out_of_range 0 163 saps_ii
         \/ out_of_range 18 80 age \/ out_of_range 10 500 platelets) ->
      same_outcome outcome outcome' /\ exists r, outcome = inr r).
Proof.
  simpl. split.
  - intros Hsame. unfold calculate_score, datetime_now. rewrite <- Hsame.
    destruct (if validate_inputs self then _ else _) as [e|[]]; [done|].
    by destruct (_determine_risk_category _).
  - intros Hin.
    assert (Hok : _validate_inputs meld saps_ii age platelets hcc cvvhd vhf = inr tt).
    { destruct (_validate_inputs meld saps_ii age platelets hcc cvvhd vhf) as [e|[]] eqn:He;
        [|done].
      exfalso. apply Hin.
      apply (_validate_inputs_inl meld saps_ii age platelets hcc cvvhd vhf).
      by eexists. }
    unfold calculate_score, datetime_now. rewrite Hok.
    destruct (validate_inputs self), (validate_inputs self');
      destruct (_determine_risk_category _); simpl; (split; [done | by eexists]).
Qed.

(** ** [calculate_batch]: the order of the timestamps *)

Section BatchTimestamps.
Local Open Scope nat_scope.

Lemma batch_step_timestamp self i patient w :
  let step := batch_step self i patient w in
  clock step.2 = clock w
  /\ exists t, timestamp step.1 = clock w t /\ ticks w <= t < ticks step.2.
Proof.
  simpl. unfold batch_step, calculate_score, datetime_now, logger_error, logger_info,
    logger_emit.
  destruct (if validate_inputs self then _ else _) as [e|[]];
    [|destruct (_determine_risk_category _)];
    destruct (log_calculations self), (truthy_str _); simpl;
    (split; [done|]);
    first [ exists (ticks w); split; [done | lia]
          | exists (S (ticks w)); split; [done | lia] ].
Qed.

Lemma batch_loop_ticks self patients : forall i results w,
  let out := batch_loop self i patients results w in
  exists ts : list nat,
    (forall k r, out.1 !! (length results + k) = Some r ->
       exists t, ts !! k = Some t /\ timestamp r = clock w t)
    /\ (forall a b ta tb, a < b -> ts !! a = Some ta -> ts !! b = Some tb -> ta < tb)
    /\ (forall k t, ts !! k = Some t -> ticks w <= t < ticks out.2)
    /\ ticks w <= ticks out.2
    /\ clock out.2 = clock w.
Proof.
  induction patients as [|p rest IH]; intros i results w; simpl.
  - exists []. split_and!; try done; try lia.
    intros k r Hk. apply lookup_lt_Some in Hk. lia.
  - pose proof (batch_step_timestamp self i p w) as Hstep. simpl in Hstep.
    destruct (batch_step self i p w) as [r0 w1]. simpl in Hstep.
    destruct Hstep as (Hclock & t0 & Ht0 & Hb0).
    destruct (IH (S i) (results ++ [r0]) w1) as (ts & Hnew & Hord & Hbounds & Hticks & Hclock').
    destruct (batch_loop_spec self rest (S i) (results ++ [r0]) w1) as (_ & Hold & _).
    rewrite length_app in Hnew. simpl in Hnew.
    exists (t0 :: ts). split_and!.
    + intros [|k] r Hk.
      * rewrite Nat.add_0_r in Hk.
        rewrite (Hold (length results) r0) in Hk
          by by rewrite lookup_app_r, Nat.sub_diag by lia.
        injection Hk as <-. by exists t0.
      * replace (length results + S k) with (length results + 1 + k) in Hk by lia.
        destruct (Hnew k r Hk) as (t & Ht & Hr). exists t. split; [done|].
        by rewrite Hr, Hclock.
    + intros [|a] [|b] ta tb Hab Ha Hb; simpl in *; try lia.
      * injection Ha as <-. specialize (Hbounds b tb Hb). lia.
      * apply (Hord a b); [lia | done | done].
    + intros [|k] t Hk; simpl in Hk.
      * injection Hk as <-. lia.
      * specialize (Hbounds k t Hk). lia.
    + lia.
    + congruence.
Qed.

(** X19: the timestamps of a batch are readings of the clock at strictly
    increasing instants, in the order of the results; so under a clock that
    never runs backwards they never decrease along the result list. *)
Theorem calculate_batch_timestamps_ordered self patients w i j r1 r2 :
  i < j ->
  (calculate_batch self patients w).1 !! i = Some r1 ->
  (calculate_batch self patients w).1 !! j = Some r2 ->
  exists t1 t2,
    ticks w <= t1 < t2
    /\ timestamp r1 = clock w t1 /\ timestamp r2 = clock w t2
    /\ ((forall a b, a <= b -> (clock w a <= clock w b)%Z) ->
        (timestamp r1 <= timestamp r2)%Z).
Proof.
  intros Hij Hi Hj. unfold calculate_batch in *.
  destruct (batch_loop_ticks self patients 0 [] w) as (ts & Hnew & Hord & Hbounds & _).
  simpl in Hnew.
  destruct (Hnew i r1 Hi) as (t1 & Ht1 & Hr1).
  destruct (Hnew j r2 Hj) as (t2 & Ht2 & Hr2).
  exists t1, t2.
  pose proof (Hord i j t1 t2 Hij Ht1 Ht2).
  pose proof (Hbounds i t1 Ht1).
  split_and!; [lia | lia | done | done |].
  intros Hmono. rewrite Hr1, Hr2. apply Hmono. lia.
Qed.
End BatchTimestamps.

Lemma calculate_batch_timestamps_ordered_witness :
  let r1 := error_result (ValueError (range_message "MELD score" (6, 40) 50%float)) 1 in
  let r2 := error_result (ValueError (range_message "MELD score" (6, 40) 60%float)) 3 in
  exists t1 t2,
    (ticks example_world <= t1 < t2)%nat
    /\ timestamp r1 = clock example_world t1 /\ timestamp r2 = clock example_world t2
    /\ ((forall a b, (a <= b)%nat -> clock example_world a <= clock example_world b) ->
        timestamp r1 <= timestamp r2).
Proof.
  apply (calculate_batch_timestamps_ordered example_calculator
           [example_patient 50; example_patient 60] example_world 0%nat 1%nat);
    [lia | vm_compute; reflexivity | vm_compute; reflexivity].
Defined.
